(** * Yikes password manager: credential cryptography and session authentication

    A shallow embedding of the server-side core of the repository:

    - [EncryptionService] (utils/encryption): [deriveMasterKey], [encrypt],
      [decrypt], [hashPassword], [verifyPassword], [generateSalt],
      [generateSecureString];
    - [AuthMiddleware] (middleware/auth): [authenticate], [optionalAuth],
      [createRateLimiter];
    - [AuthController]: [register], [login], [logout], [refreshToken];
    - [CredentialsController]: [create], [update], [delete],
      [toggleFavorite];
    - [getPasswordStrength] of the client.

    Strings are JavaScript strings, i.e. sequences of UTF-16 code units;
    buffers are byte sequences.  The relational store is a record of
    tables, lists of rows keyed by the columns of database/migrate, with
    the constraints of that schema on the statements that write; a row
    reaches a handler as the driver returns it, so that a property of a
    user row is read by the name of its column.  Every handler is a
    computation over a [World] that may throw, and every [db.query] may
    fail according to a fault schedule carried by the world.

    The Node.js primitives the code calls (the block cipher behind
    aes-256-gcm, PBKDF2, bcrypt, HMAC-signed tokens, one-time codes) are
    interfaces: the development is parametric in them. *)

From Stdlib Require Import String Ascii List NArith ZArith Bool Lia.
From Stdlib.Strings Require Import Byte.
Import ListNotations.

Set Implicit Arguments.
Open Scope N_scope.

(* ================================================================== *)
(** ** JavaScript strings *)

Definition code_unit := N.
Definition jsstring := list code_unit.

(** A string literal of the source, as code units. *)
Definition js (s : string) : jsstring :=
  List.map N_of_ascii (list_ascii_of_string s).

Fixpoint jseqb (a b : jsstring) : bool :=
  match a, b with
  | [], [] => true
  | x :: a', y :: b' => (x =? y) && jseqb a' b'
  | _, _ => false
  end.

(** [s.startsWith(p)] *)
Fixpoint startsWith (s p : jsstring) {struct p} : bool :=
  match p with
  | [] => true
  | y :: p' =>
      match s with
      | x :: s' => (x =? y) && startsWith s' p'
      | [] => false
      end
  end.

(** [s.substring(n)] *)
Definition substring (n : nat) (s : jsstring) : jsstring := skipn n s.

(** Truthiness of an optional string: [undefined] and [''] are falsy. *)
Definition truthy (o : option jsstring) : bool :=
  match o with
  | Some (_ :: _) => true
  | _ => false
  end.

Definition is_high_surrogate (c : code_unit) : bool :=
  (0xD800 <=? c) && (c <? 0xDC00).
Definition is_low_surrogate (c : code_unit) : bool :=
  (0xDC00 <=? c) && (c <? 0xE000).

(** A string is well formed when every code unit is below 2^16 and every
    surrogate is half of a high/low pair. *)
Fixpoint well_formed (s : jsstring) : bool :=
  match s with
  | [] => true
  | c :: rest =>
      if is_high_surrogate c then
        match rest with
        | d :: rest' => is_low_surrogate d && well_formed rest'
        | [] => false
        end
      else negb (is_low_surrogate c) && (c <? 0x10000) && well_formed rest
  end.

(* ================================================================== *)
(** ** Buffers: hex and UTF-8 *)

Definition Buffer := list byte.

Definition byte_of_N (n : N) : byte :=
  match Byte.of_N (n mod 256) with
  | Some b => b
  | None => x00
  end.

Definition byte_xor (a b : byte) : byte :=
  byte_of_N (N.lxor (Byte.to_N a) (Byte.to_N b)).

Module Hex.

(** Lower-case digit of a nibble, as [buf.toString('hex')] prints it. *)
Definition digit (n : N) : code_unit :=
  if n <? 10 then 48 + n else 87 + n.

(** Value of a hex digit; both cases are accepted when decoding, and
    the decoder looks at the low byte of a code unit only. *)
Definition value (c : code_unit) : option N :=
  let b := c mod 256 in
  if (48 <=? b) && (b <=? 57) then Some (b - 48)
  else if (97 <=? b) && (b <=? 102) then Some (b - 87)
  else if (65 <=? b) && (b <=? 70) then Some (b - 55)
  else None.

Definition is_lower_digit (c : code_unit) : bool :=
  ((48 <=? c) && (c <=? 57)) || ((97 <=? c) && (c <=? 102)).

(** [buf.toString('hex')] *)
Definition encode (b : Buffer) : jsstring :=
  flat_map (fun x => [digit (Byte.to_N x / 16); digit (Byte.to_N x mod 16)]) b.

(** [Buffer.from(s, 'hex')]: whole pairs of hex digits are decoded, and
    decoding stops at the first pair that is not made of hex digits; a
    trailing single character is dropped. *)
Fixpoint decode (s : jsstring) : Buffer :=
  match s with
  | h :: l :: rest =>
      match value h, value l with
      | Some a, Some b => byte_of_N (16 * a + b) :: decode rest
      | _, _ => []
      end
  | _ => []
  end.

(** Strings [encode] can produce: lower-case digits, in pairs. *)
Fixpoint canonical (s : jsstring) : bool :=
  match s with
  | [] => true
  | h :: l :: rest => is_lower_digit h && is_lower_digit l && canonical rest
  | _ => false
  end.

End Hex.

Module Utf8.

Definition replacement : Buffer := [xef; xbf; xbd].   (* U+FFFD *)

(** UTF-8 bytes of a code point ([0x80 | x] is written [0x80 + x], shifts
    are written as divisions). *)
Definition of_code_point (cp : N) : Buffer :=
  if cp <? 0x80 then [byte_of_N cp]
  else if cp <? 0x800 then
    [byte_of_N (0xC0 + cp / 64); byte_of_N (0x80 + cp mod 64)]
  else if cp <? 0x10000 then
    [byte_of_N (0xE0 + cp / 4096); byte_of_N (0x80 + (cp / 64) mod 64);
     byte_of_N (0x80 + cp mod 64)]
  else
    [byte_of_N (0xF0 + cp / 262144); byte_of_N (0x80 + (cp / 4096) mod 64);
     byte_of_N (0x80 + (cp / 64) mod 64); byte_of_N (0x80 + cp mod 64)].

(** [Buffer.from(s, 'utf8')], also the input conversion of
    [cipher.update(s, 'utf8', _)]: a surrogate pair is one code point, a
    surrogate that is not part of a pair is written as U+FFFD. *)
Fixpoint encode (s : jsstring) : Buffer :=
  match s with
  | [] => []
  | c :: rest =>
      if is_high_surrogate c then
        match rest with
        | d :: rest' =>
            if is_low_surrogate d
            then of_code_point (0x10000 + (c - 0xD800) * 1024 + (d - 0xDC00))
                   ++ encode rest'
            else replacement ++ encode rest
        | [] => replacement
        end
      else if is_low_surrogate c then replacement ++ encode rest
      else of_code_point c ++ encode rest
  end.

(** Code units of a decoded code point. *)
Definition units (cp : N) : jsstring :=
  if cp <? 0x10000 then [cp]
  else [0xD800 + (cp - 0x10000) / 1024; 0xDC00 + (cp - 0x10000) mod 1024].

Definition is_cont (n : N) : bool := (0x80 <=? n) && (n <? 0xC0).

(** The range of the second byte of a sequence that begins with [n0]:
    the ranges that rule out overlong forms, surrogates and code points
    above U+10FFFF. *)
Definition second (n0 n1 : N) : bool :=
  if n0 =? 0xE0 then (0xA0 <=? n1) && (n1 <? 0xC0)
  else if n0 =? 0xED then (0x80 <=? n1) && (n1 <? 0xA0)
  else if n0 =? 0xF0 then (0x90 <=? n1) && (n1 <? 0xC0)
  else if n0 =? 0xF4 then (0x80 <=? n1) && (n1 <? 0x90)
  else is_cont n1.

(** [buf.toString('utf8')], also the output conversion of
    [decipher.update(_, _, 'utf8')] followed by [decipher.final('utf8')].
    A well-formed sequence is decoded; the longest prefix of one that
    the bytes at hand begin with is replaced by one U+FFFD, and so is a
    byte that begins none. *)
Fixpoint decode (b : Buffer) : jsstring :=
  match b with
  | [] => []
  | b0 :: t0 =>
      let n0 := Byte.to_N b0 in
      if n0 <? 0x80 then n0 :: decode t0
      else if (0xC2 <=? n0) && (n0 <? 0xE0) then
        match t0 with
        | b1 :: t1 =>
            let n1 := Byte.to_N b1 in
            if is_cont n1
            then units ((n0 - 0xC0) * 64 + (n1 - 0x80)) ++ decode t1
            else 0xFFFD :: decode t0
        | [] => [0xFFFD]
        end
      else if (0xE0 <=? n0) && (n0 <? 0xF0) then
        match t0 with
        | b1 :: t1 =>
            let n1 := Byte.to_N b1 in
            if second n0 n1 then
              match t1 with
              | b2 :: t2 =>
                  let n2 := Byte.to_N b2 in
                  if is_cont n2
                  then units ((n0 - 0xE0) * 4096 + (n1 - 0x80) * 64 + (n2 - 0x80))
                         ++ decode t2
                  else 0xFFFD :: decode t1
              | [] => [0xFFFD]
              end
            else 0xFFFD :: decode t0
        | [] => [0xFFFD]
        end
      else if (0xF0 <=? n0) && (n0 <? 0xF5) then
        match t0 with
        | b1 :: t1 =>
            let n1 := Byte.to_N b1 in
            if second n0 n1 then
              match t1 with
              | b2 :: t2 =>
                  let n2 := Byte.to_N b2 in
                  if is_cont n2 then
                    match t2 with
                    | b3 :: t3 =>
                        let n3 := Byte.to_N b3 in
                        if is_cont n3
                        then units ((n0 - 0xF0) * 262144 + (n1 - 0x80) * 4096
                                    + (n2 - 0x80) * 64 + (n3 - 0x80))
                               ++ decode t3
                        else 0xFFFD :: decode t2
                    | [] => [0xFFFD]
                    end
                  else 0xFFFD :: decode t1
              | [] => [0xFFFD]
              end
            else 0xFFFD :: decode t0
        | [] => [0xFFFD]
        end
      else 0xFFFD :: decode t0
  end.

End Utf8.

Module Base64url.

(** Character of a 6-bit value in the URL-safe alphabet
    [A-Z a-z 0-9 - _]. *)
Definition char (n : N) : code_unit :=
  if n <? 26 then 65 + n
  else if n <? 52 then 71 + n
  else if n <? 62 then n - 4
  else if n =? 62 then 45
  else 95.

Definition in_alphabet (c : code_unit) : bool :=
  ((65 <=? c) && (c <=? 90)) || ((97 <=? c) && (c <=? 122))
  || ((48 <=? c) && (c <=? 57)) || (c =? 45) || (c =? 95).

(** [buf.toString('base64url')]: four characters per three bytes, no
    padding. *)
Fixpoint encode (b : Buffer) : jsstring :=
  match b with
  | [] => []
  | x :: t1 =>
      let a := Byte.to_N x in
      match t1 with
      | [] => [char (a / 4); char (a mod 4 * 16)]
      | y :: t2 =>
          let b := Byte.to_N y in
          match t2 with
          | [] => [char (a / 4); char (a mod 4 * 16 + b / 16); char (b mod 16 * 4)]
          | z :: rest =>
              let c := Byte.to_N z in
              char (a / 4) :: char (a mod 4 * 16 + b / 16)
              :: char (b mod 16 * 4 + c / 64) :: char (c mod 64) :: encode rest
          end
      end
  end.

End Base64url.

(* ================================================================== *)
(** ** The cryptographic primitives of the platform *)

(** The operating system's random source, read by [crypto.randomBytes]. *)
Record Entropy := { stream : nat -> byte; cursor : nat }.

Definition randomBytes (n : nat) (e : Entropy) : Buffer * Entropy :=
  (List.map (stream e) (seq (cursor e) n),
   {| stream := stream e; cursor := (cursor e + n)%nat |}).

Inductive digest := sha512.

(** What Node's [crypto] module computes with OpenSSL.  AES-GCM is counter
    mode with a tag over the associated data and the ciphertext, so the
    cipher is given by its keystream and its tag; PBKDF2 output is a prefix
    of one stream per (password, salt, iteration count). *)
Class NodeCrypto := {
  (** [EVP_BytesToKey] (MD5, no salt, one round), the derivation behind
      [crypto.createCipher(algorithm, password)]: key and IV of the given
      lengths, from the password alone. *)
  EVP_BytesToKey : Buffer -> nat -> nat -> Buffer * Buffer;
  (** byte [i] of the keystream under a key and an IV *)
  gcm_keystream : Buffer -> Buffer -> nat -> byte;
  (** byte [i] of the tag of (key, IV, associated data, ciphertext) *)
  gcm_tag : Buffer -> Buffer -> Buffer -> Buffer -> nat -> byte;
  (** byte [i] of PBKDF2(digest, password, salt, iterations) *)
  pbkdf2_stream : digest -> Buffer -> Buffer -> N -> nat -> byte
}.

(** A toy instance, to run the service on concrete inputs. *)
Definition toy_sum (b : Buffer) : N :=
  fold_right (fun x acc => Byte.to_N x + acc) 0 b.

Definition toy_crypto : NodeCrypto := {|
  EVP_BytesToKey := fun pw klen ivlen =>
    (List.map (fun i => nth i pw x00) (seq 0 klen),
     List.map (fun i => byte_of_N (toy_sum pw + N.of_nat i)) (seq 0 ivlen));
  gcm_keystream := fun k iv i =>
    byte_of_N (toy_sum k + 7 * toy_sum iv + 13 * N.of_nat i);
  gcm_tag := fun k iv aad ct i =>
    byte_of_N (toy_sum k + toy_sum iv + toy_sum aad + 3 * toy_sum ct + N.of_nat i);
  pbkdf2_stream := fun _ pw salt c i =>
    byte_of_N (toy_sum pw + 5 * toy_sum salt + c + 11 * N.of_nat i)
|}.

Definition zero_entropy : Entropy := {| stream := fun _ => x00; cursor := 0 |}.
Definition counting_entropy : Entropy :=
  {| stream := fun i => byte_of_N (N.of_nat i); cursor := 0 |}.

(* ================================================================== *)
(** ** EncryptionService (utils/encryption) *)

Record EncryptedData := {
  encrypted : jsstring;
  iv : jsstring;
  authTag : jsstring;
  salt : jsstring
}.

Record MasterKey := { key : Buffer; mk_salt : jsstring }.

(** State of a [Cipher] / [Decipher] object of the [crypto] module. *)
Record Cipher := {
  c_key : Buffer;           (* key in use *)
  c_iv : Buffer;            (* nonce in use *)
  c_aad : Buffer;           (* associated data *)
  c_text : Buffer;          (* ciphertext processed so far *)
  c_tag : option Buffer     (* tag to verify (decipher only) *)
}.

Definition KEY_LENGTH : nat := 32.
Definition IV_LENGTH : nat := 16.
Definition AUTH_TAG_LENGTH : nat := 16.
Definition PBKDF2_ITERATIONS : N := 100000.
(** IV length of aes-256-gcm in OpenSSL, used when no IV is passed. *)
Definition GCM_IV_LENGTH : nat := 12.
(** The associated data of every envelope. *)
Definition AAD : Buffer := Utf8.encode (js "yikes-password-manager").

Section EncryptionService.

Context {NC : NodeCrypto}.

(** [promisify(crypto.pbkdf2)(password, salt, iterations, keylen, digest)] *)
Definition pbkdf2 (password : jsstring) (saltBuffer : Buffer)
    (iterations : N) (keylen : nat) (d : digest) : Buffer :=
  List.map (pbkdf2_stream d (Utf8.encode password) saltBuffer iterations)
           (seq 0 keylen).

(** [crypto.createCipher(ALGORITHM, password)] and
    [crypto.createDecipher(ALGORITHM, password)]: no IV is passed; key
    and IV both come from the password. *)
Definition createCipher (password : Buffer) : Cipher :=
  let (k, n) := EVP_BytesToKey password KEY_LENGTH GCM_IV_LENGTH in
  {| c_key := k; c_iv := n; c_aad := []; c_text := []; c_tag := None |}.

Definition createDecipher (password : Buffer) : Cipher := createCipher password.

Definition setAAD (aad : Buffer) (c : Cipher) : Cipher :=
  {| c_key := c_key c; c_iv := c_iv c; c_aad := aad;
     c_text := c_text c; c_tag := c_tag c |}.

(** XOR with the keystream, from position [pos] on. *)
Fixpoint ctr (k n : Buffer) (pos : nat) (data : Buffer) : Buffer :=
  match data with
  | [] => []
  | x :: rest => byte_xor x (gcm_keystream k n pos) :: ctr k n (S pos) rest
  end.

(** [cipher.update(data)]: the ciphertext of [data]. *)
Definition cipher_update (data : Buffer) (c : Cipher) : Buffer * Cipher :=
  let out := ctr (c_key c) (c_iv c) (length (c_text c)) data in
  (out, {| c_key := c_key c; c_iv := c_iv c; c_aad := c_aad c;
           c_text := c_text c ++ out; c_tag := c_tag c |}).

(** [cipher.final()]: a stream mode has nothing left to write. *)
Definition cipher_final (c : Cipher) : Buffer := [].

Definition tag_of (c : Cipher) : Buffer :=
  List.map (gcm_tag (c_key c) (c_iv c) (c_aad c) (c_text c)) (seq 0 16).

(** [cipher.getAuthTag()] *)
Definition getAuthTag (c : Cipher) : Buffer := tag_of c.

(** [decipher.setAuthTag(tag)] throws on a tag of an invalid length. *)
Definition setAuthTag (tag : Buffer) (c : Cipher) : option Cipher :=
  if existsb (Nat.eqb (length tag)) [4; 8; 12; 13; 14; 15; 16]%nat
  then Some {| c_key := c_key c; c_iv := c_iv c; c_aad := c_aad c;
               c_text := c_text c; c_tag := Some tag |}
  else None.

(** [decipher.update(data)]: the plaintext of the ciphertext [data]. *)
Definition decipher_update (data : Buffer) (c : Cipher) : Buffer * Cipher :=
  let out := ctr (c_key c) (c_iv c) (length (c_text c)) data in
  (out, {| c_key := c_key c; c_iv := c_iv c; c_aad := c_aad c;
           c_text := c_text c ++ data; c_tag := c_tag c |}).

Fixpoint buffer_eqb (a b : Buffer) : bool :=
  match a, b with
  | [], [] => true
  | x :: a', y :: b' => (Byte.to_N x =? Byte.to_N y) && buffer_eqb a' b'
  | _, _ => false
  end.

(** [decipher.final()]: throws unless the tag that was set is the tag of
    what was processed. *)
Definition decipher_final (c : Cipher) : option Buffer :=
  match c_tag c with
  | Some t => if buffer_eqb (firstn (length t) (tag_of c)) t then Some [] else None
  | None => None
  end.

Definition deriveMasterKey (password : jsstring) (salt : option jsstring)
    (e : Entropy) : MasterKey * Entropy :=
  let (saltBuffer, e') :=
    match salt with
    | Some (c :: s) => (Hex.decode (c :: s), e)
    | _ => randomBytes 32 e
    end in
  let key := pbkdf2 password saltBuffer PBKDF2_ITERATIONS KEY_LENGTH sha512 in
  ({| key := key; mk_salt := Hex.encode saltBuffer |}, e').

(** [encrypt], returning also the cipher object it worked with. *)
Definition encrypt_with_cipher (data : jsstring) (masterKey : Buffer)
    (e : Entropy) : EncryptedData * Cipher * Entropy :=
  let (iv, e') := randomBytes IV_LENGTH e in
  let cipher := createCipher masterKey in
  let cipher := setAAD AAD cipher in
  let (out, cipher) := cipher_update (Utf8.encode data) cipher in
  let encrypted := Hex.encode out ++ Hex.encode (cipher_final cipher) in
  let authTag := getAuthTag cipher in
  ({| encrypted := encrypted;
      iv := Hex.encode iv;
      authTag := Hex.encode authTag;
      salt := [] |}, cipher, e').

Definition encrypt (data : jsstring) (masterKey : Buffer) (e : Entropy)
    : EncryptedData * Entropy :=
  let '(env, _, e') := encrypt_with_cipher data masterKey e in (env, e').

(** [decrypt]; [None] when it throws.  [decipher.update(s, 'hex', _)]
    throws on a string of odd length and decodes any other as
    [Buffer.from(s, 'hex')] does. *)
Definition decrypt (encryptedData : EncryptedData) (masterKey : Buffer)
    : option jsstring :=
  let iv := Hex.decode (iv encryptedData) in
  let authTag := Hex.decode (authTag encryptedData) in
  let decipher := createDecipher masterKey in
  let decipher := setAAD AAD decipher in
  match setAuthTag authTag decipher with
  | None => None
  | Some decipher =>
      if Nat.odd (length (encrypted encryptedData)) then None
      else
        let (out, decipher) :=
          decipher_update (Hex.decode (encrypted encryptedData)) decipher in
        match decipher_final decipher with
        | None => None
        | Some rest => Some (Utf8.decode (out ++ rest))
        end
  end.

Definition generateKey (e : Entropy) : Buffer * Entropy :=
  randomBytes KEY_LENGTH e.

Definition generateSalt (e : Entropy) : jsstring * Entropy :=
  let (s, e') := randomBytes 32 e in (Hex.encode s, e').

End EncryptionService.

(** [EncryptionService.generateSecureString(length)] *)
Definition generateSecureString (length : nat) (e : Entropy) : jsstring * Entropy :=
  let (bytes, e') := randomBytes length e in
  (firstn length (Base64url.encode bytes), e').

(* ================================================================== *)
(** ** Rows, tables and requests (types/index, database/migrate) *)

(** Row identifiers (UUIDs) and timestamps (milliseconds since the epoch). *)
Definition uuid := N.
Definition time := N.

(** A row of [users], as the migration declares the table and as
    [db.query] hands it over: an object keyed by the column names (the
    columns [created_at] and [updated_at], which no statement of the
    handlers names, are left out). *)
Record User := {
  u_id : uuid;                          (* id *)
  u_email : jsstring;                   (* email *)
  password_hash : jsstring;
  master_key_salt : jsstring;
  two_factor_secret : option jsstring;
  two_factor_enabled : bool;
  last_login_at : option time
}.

(** JavaScript values read from a row. *)
Inductive value :=
| Undefined
| Null
| Str (s : jsstring)
| Bool (b : bool)
| Id (i : uuid)
| Date (t : time).

(** [if (v)] *)
Definition truthy_value (v : value) : bool :=
  match v with
  | Undefined | Null | Str [] => false
  | Bool b => b
  | Str (_ :: _) | Id _ | Date _ => true
  end.

(** [user[key]] for [user = result.rows[0] as User]: the cast is erased
    at run time, and the object has the properties the driver gave it,
    one per column. *)
Definition property (user : User) (key : string) : value :=
  if (key =? "id")%string then Id (u_id user)
  else if (key =? "email")%string then Str (u_email user)
  else if (key =? "password_hash")%string then Str (password_hash user)
  else if (key =? "master_key_salt")%string then Str (master_key_salt user)
  else if (key =? "two_factor_secret")%string then
    match two_factor_secret user with Some s => Str s | None => Null end
  else if (key =? "two_factor_enabled")%string then Bool (two_factor_enabled user)
  else if (key =? "last_login_at")%string then
    match last_login_at user with Some t => Date t | None => Null end
  else Undefined.

Record Session := {
  s_id : uuid;
  s_userId : uuid;
  s_token : jsstring;
  expiresAt : time;
  s_userAgent : option jsstring;
  s_ipAddress : option jsstring
}.

Record SecurityAudit := {
  a_userId : uuid;
  action : jsstring;
  details : jsstring;
  a_ipAddress : option jsstring;
  a_userAgent : option jsstring
}.

Record Credential := {
  c_id : uuid;
  c_userId : uuid;
  title : jsstring;
  username : jsstring;
  password : jsstring;            (* sealed on the client *)
  url : option jsstring;
  notes : option jsstring;
  folderId : option uuid;
  tags : list jsstring;
  favorite : bool;
  updatedAt : time
}.

Record Folder := { f_id : uuid; f_userId : uuid; f_name : jsstring }.

Record PasswordHistory := {
  ph_credentialId : uuid;
  ph_password : jsstring;
  changedAt : time
}.

Record Db := {
  users : list User;
  sessions : list Session;
  security_audit : list SecurityAudit;
  credentials : list Credential;
  folders : list Folder;
  password_history : list PasswordHistory
}.

Definition empty_db : Db :=
  {| users := []; sessions := []; security_audit := []; credentials := [];
     folders := []; password_history := [] |}.

Record JWTPayload := {
  userId : uuid;
  email : jsstring;
  iat : N;       (* seconds *)
  exp : N        (* seconds *)
}.

Record LoginRequest := {
  l_email : option jsstring;
  l_password : option jsstring;
  twoFactorCode : option jsstring;
  rememberMe : option bool
}.

Record RegisterRequest := {
  r_email : option jsstring;
  r_password : option jsstring;
  confirmPassword : option jsstring
}.

Record CreateCredentialRequest := {
  cr_title : option jsstring;
  cr_username : option jsstring;
  cr_password : option jsstring;
  cr_url : option jsstring;
  cr_notes : option jsstring;
  cr_folderId : option uuid;
  cr_tags : option (list jsstring);
  cr_favorite : option bool
}.

Record UpdateCredentialRequest := {
  up_title : option jsstring;
  up_username : option jsstring;
  up_password : option jsstring;
  up_url : option jsstring;
  up_notes : option jsstring;
  up_folderId : option uuid;
  up_tags : option (list jsstring);
  up_favorite : option bool
}.

(** The parts of an Express request the handlers read. *)
Record Request (B : Type) := {
  authorization : option jsstring;     (* req.headers.authorization *)
  body : B;                            (* req.body *)
  ip : option jsstring;                (* req.ip *)
  userAgent : option jsstring;         (* req.get('User-Agent') *)
  req_user : option User;              (* req.user *)
  param_id : uuid                      (* req.params.id *)
}.

(** The [data] of a response; a property whose value is [Undefined] is
    left out of the JSON that is sent. *)
Inductive Data :=
| RegisterData (id : uuid) (email : jsstring) (masterKeySalt : value)
| LoginData (token : jsstring) (id : uuid) (email : jsstring)
            (twoFactorEnabled masterKeySalt : value)
| TokenData (token : jsstring)
| CredentialData (c : Credential).

(** What was sent: [res.status(s).json({success, message, error, data})]. *)
Record Response := {
  status : N;
  success : bool;
  message : option jsstring;
  error : option jsstring;
  data : option Data
}.

Definition failure (st : N) (msg : string) : Response :=
  {| status := st; success := false; message := None;
     error := Some (js msg); data := None |}.

Definition reply (st : N) (msg : option string) (d : option Data) : Response :=
  {| status := st; success := true; message := option_map js msg;
     error := None; data := d |}.

(* ================================================================== *)
(** ** The libraries behind authentication *)

(** bcryptjs, jsonwebtoken, otplib and [String.prototype.toLowerCase]. *)
Class AuthLibs := {
  (** [bcrypt.hash] with a cost and a 16-byte salt *)
  bcrypt_hash : jsstring -> N -> Buffer -> jsstring;
  (** [bcrypt.compare(password, hash)] *)
  bcrypt_compare : jsstring -> jsstring -> bool;
  (** the signed compact serialization of a payload under a secret *)
  jwt_encode : jsstring -> JWTPayload -> jsstring;
  (** parsing and signature check of a token under a secret *)
  jwt_decode : jsstring -> jsstring -> option JWTPayload;
  (** [authenticator.check(token, secret)] at a time *)
  authenticator_check : jsstring -> jsstring -> time -> bool;
  toLowerCase : jsstring -> jsstring
}.

(** A toy instance, to run the handlers on concrete inputs. *)
Definition toy_lower (c : code_unit) : code_unit :=
  if (65 <=? c) && (c <=? 90) then c + 32 else c.

Definition toy_jwt_encode (secret : jsstring) (p : JWTPayload) : jsstring :=
  [userId p; iat p; exp p; N.of_nat (length (email p))] ++ email p ++ secret.

Definition toy_jwt_decode (secret token : jsstring) : option JWTPayload :=
  match token with
  | uid :: i :: e :: len :: rest =>
      if jseqb (skipn (N.to_nat len) rest) secret
      then Some {| userId := uid; email := firstn (N.to_nat len) rest;
                   iat := i; exp := e |}
      else None
  | _ => None
  end.

Definition toy_libs : AuthLibs := {|
  bcrypt_hash := fun pw _ _ => js "$2a$12$" ++ pw;
  bcrypt_compare := fun pw h => jseqb h (js "$2a$12$" ++ pw);
  jwt_encode := toy_jwt_encode;
  jwt_decode := toy_jwt_decode;
  authenticator_check := fun token secret now =>
    let h := fold_right N.add 0 secret + 7 * (now / 30000) in
    jseqb token (List.map (fun i => 48 + (h / 10 ^ (N.of_nat i)) mod 10) (rev (seq 0 6)));
  toLowerCase := List.map toy_lower
|}.

(* ================================================================== *)
(** ** Worlds and handler computations *)

Inductive exn :=
| JsonWebTokenError      (* malformed token or bad signature *)
| TokenExpiredError      (* a subclass of JsonWebTokenError *)
| DatabaseError          (* db.query rejected *)
| IllegalArguments       (* Error('Illegal arguments: ...') of bcryptjs *)
| TypeError.

Definition instanceof_JsonWebTokenError (e : exn) : bool :=
  match e with
  | JsonWebTokenError | TokenExpiredError => true
  | _ => false
  end.

Definition instanceof_TokenExpiredError (e : exn) : bool :=
  match e with
  | TokenExpiredError => true
  | _ => false
  end.

Inductive outcome (A : Type) :=
| Ok (a : A)
| Throw (e : exn).
Arguments Ok {A} a.
Arguments Throw {A} e.

(** The store, the schedule of query failures to come (the head tells
    whether the next [db.query] rejects; an empty schedule means none does),
    the random source and the supply of fresh row identifiers. *)
Record World := {
  db : Db;
  faults : list bool;
  entropy : Entropy;
  next_uuid : uuid
}.

Definition M (A : Type) := World -> outcome A * World.

Definition ret {A} (a : A) : M A := fun w => (Ok a, w).
Definition throw {A} (e : exn) : M A := fun w => (Throw e, w).
Definition bind {A B} (m : M A) (k : A -> M B) : M B :=
  fun w => match m w with
           | (Ok a, w') => k a w'
           | (Throw e, w') => (Throw e, w')
           end.
(** [try { m } catch (error) { h error }] *)
Definition try_catch {A} (m : M A) (h : exn -> M A) : M A :=
  fun w => match m w with
           | (Ok a, w') => (Ok a, w')
           | (Throw e, w') => h e w'
           end.

Declare Scope handler_scope.
Delimit Scope handler_scope with handler.
Notation "x <- m ;; k" := (bind m (fun x => k))
  (at level 61, m at next level, right associativity) : handler_scope.
Notation "'await' m ;; k" := (bind m (fun _ => k))
  (at level 61, m at next level, right associativity) : handler_scope.
Open Scope handler_scope.

(** [await db.query(statement)] *)
Definition query {A} (statement : Db -> outcome A * Db) : M A :=
  fun w =>
    let run fs :=
      let (r, d) := statement (db w) in
      (r, {| db := d; faults := fs; entropy := entropy w; next_uuid := next_uuid w |}) in
    match faults w with
    | true :: fs =>
        (Throw DatabaseError,
         {| db := db w; faults := fs; entropy := entropy w; next_uuid := next_uuid w |})
    | false :: fs => run fs
    | [] => run []
    end.

Definition with_entropy {A} (f : Entropy -> A * Entropy) : M A :=
  fun w =>
    let (a, e) := f (entropy w) in
    (Ok a, {| db := db w; faults := faults w; entropy := e; next_uuid := next_uuid w |}).

(** A fresh UUID ([uuidv4()], or the [gen_random_uuid()] default of a table). *)
Definition uuidv4 : M uuid :=
  fun w => (Ok (next_uuid w),
            {| db := db w; faults := faults w; entropy := entropy w;
               next_uuid := next_uuid w + 1 |}).

(* ================================================================== *)
(** ** SQL statements *)

Module Sql.

Definition set_users (l : list User) (d : Db) : Db :=
  {| users := l; sessions := sessions d; security_audit := security_audit d;
     credentials := credentials d; folders := folders d;
     password_history := password_history d |}.
Definition set_sessions (l : list Session) (d : Db) : Db :=
  {| users := users d; sessions := l; security_audit := security_audit d;
     credentials := credentials d; folders := folders d;
     password_history := password_history d |}.
Definition set_security_audit (l : list SecurityAudit) (d : Db) : Db :=
  {| users := users d; sessions := sessions d; security_audit := l;
     credentials := credentials d; folders := folders d;
     password_history := password_history d |}.
Definition set_credentials (l : list Credential) (d : Db) : Db :=
  {| users := users d; sessions := sessions d; security_audit := security_audit d;
     credentials := l; folders := folders d;
     password_history := password_history d |}.

(** *** Constraints of the schema *)

(** The characters of a string as the driver sends it, in UTF-8: a
    surrogate pair is one character, and a surrogate without its partner
    goes out as U+FFFD. *)
Fixpoint chars (s : jsstring) : list jsstring :=
  match s with
  | [] => []
  | c :: rest =>
      if is_high_surrogate c then
        match rest with
        | d :: rest' =>
            if is_low_surrogate d then [c; d] :: chars rest'
            else [0xFFFD] :: chars rest
        | [] => [[0xFFFD]]
        end
      else if is_low_surrogate c then [0xFFFD] :: chars rest
      else [c] :: chars rest
  end.

(** The value a [TEXT] column takes for a string: the server rejects a
    NUL character. *)
Definition text (s : jsstring) : option jsstring :=
  if existsb (N.eqb 0) s then None else Some (concat (chars s)).

(** The value a [VARCHAR(n)] column takes for a string: characters
    beyond the [n]-th are cut off when they are all spaces, and the
    statement is rejected when they are not. *)
Definition varchar (n : nat) (s : jsstring) : option jsstring :=
  if existsb (N.eqb 0) s then None
  else if forallb (jseqb [32]) (skipn n (chars s))
  then Some (concat (firstn n (chars s)))
  else None.

(** [REFERENCES users(id)] and [REFERENCES folders(id)] *)
Definition user_exists (id : uuid) (d : Db) : bool :=
  existsb (fun u => u_id u =? id) (users d).
Definition folder_exists (id : uuid) (d : Db) : bool :=
  existsb (fun f => f_id f =? id) (folders d).

Definition texts (l : list jsstring) : option (list jsstring) :=
  fold_right (fun s acc =>
                match text s, acc with
                | Some s', Some l' => Some (s' :: l')
                | _, _ => None
                end) (Some []) l.

Definition optional_text (o : option jsstring) : option (option jsstring) :=
  match o with
  | Some s => option_map Some (text s)
  | None => Some None
  end.

(** The row of [credentials] that an INSERT of [c] stores, if the schema
    accepts it: [title] and [username] are VARCHAR(255), [password],
    [url], [notes] and the [tags] are TEXT, [user_id] and [folder_id]
    reference rows that exist. *)
Definition stored_credential (c : Credential) (d : Db) : option Credential :=
  match varchar 255 (title c), varchar 255 (username c), text (password c),
        optional_text (url c), optional_text (notes c), texts (tags c) with
  | Some t, Some un, Some pw, Some u, Some n, Some tg =>
      if user_exists (c_userId c) d
         && match folderId c with Some f => folder_exists f d | None => true end
      then Some {| c_id := c_id c; c_userId := c_userId c; title := t;
                   username := un; password := pw; url := u; notes := n;
                   folderId := folderId c; tags := tg; favorite := favorite c;
                   updatedAt := updatedAt c |}
      else None
  | _, _, _, _, _, _ => None
  end.

(** *** Statements *)

(** SELECT ... FROM users WHERE email = $1 (the parameter reaches the
    server as text: a NUL character in it is rejected) *)
Definition select_users_by_email (e : jsstring) (d : Db) : outcome (list User) * Db :=
  match text e with
  | Some e => (Ok (filter (fun u => jseqb (u_email u) e) (users d)), d)
  | None => (Throw DatabaseError, d)
  end.

(** SELECT * FROM users WHERE id = $1 *)
Definition select_users_by_id (id : uuid) (d : Db) : outcome (list User) * Db :=
  (Ok (filter (fun u => u_id u =? id) (users d)), d).

(** INSERT INTO users (email, password_hash, master_key_salt) ... RETURNING *
    (the three columns are VARCHAR(255), and [email] is UNIQUE) *)
Definition insert_user (id : uuid) (e hash salt : jsstring) (d : Db)
    : outcome (list User) * Db :=
  match varchar 255 e, varchar 255 hash, varchar 255 salt with
  | Some e, Some hash, Some salt =>
      if existsb (fun u => jseqb (u_email u) e) (users d) then (Throw DatabaseError, d)
      else
        let u := {| u_id := id; u_email := e; password_hash := hash;
                    master_key_salt := salt; two_factor_secret := None;
                    two_factor_enabled := false; last_login_at := None |} in
        (Ok [u], set_users (users d ++ [u]) d)
  | _, _, _ => (Throw DatabaseError, d)
  end.

(** UPDATE users SET last_login_at = NOW() WHERE id = $1 *)
Definition update_last_login (id : uuid) (now : time) (d : Db) : outcome unit * Db :=
  (Ok tt,
   set_users
     (List.map (fun u => if u_id u =? id
                    then {| u_id := u_id u; u_email := u_email u;
                            password_hash := password_hash u;
                            master_key_salt := master_key_salt u;
                            two_factor_secret := two_factor_secret u;
                            two_factor_enabled := two_factor_enabled u;
                            last_login_at := Some now |}
                    else u) (users d)) d).

(** INSERT INTO security_audit (user_id, action, details, ip_address, user_agent) *)
Definition insert_audit (a : SecurityAudit) (d : Db) : outcome unit * Db :=
  (Ok tt, set_security_audit (security_audit d ++ [a]) d).

(** SELECT * FROM sessions WHERE token = $1 AND expires_at > NOW() *)
Definition select_valid_sessions (token : jsstring) (now : time) (d : Db)
    : outcome (list Session) * Db :=
  (Ok (filter (fun s => jseqb (s_token s) token && (now <? expiresAt s)) (sessions d)), d).

(** INSERT INTO sessions (id, user_id, token, expires_at, user_agent, ip_address)
    ([token] is VARCHAR(255) and UNIQUE, [user_id] references a user) *)
Definition insert_session (s : Session) (d : Db) : outcome unit * Db :=
  match varchar 255 (s_token s) with
  | None => (Throw DatabaseError, d)
  | Some token =>
      if negb (user_exists (s_userId s) d)
         || existsb (fun s' => jseqb (s_token s') token) (sessions d)
      then (Throw DatabaseError, d)
      else (Ok tt,
            set_sessions
              (sessions d ++ [{| s_id := s_id s; s_userId := s_userId s;
                                 s_token := token; expiresAt := expiresAt s;
                                 s_userAgent := s_userAgent s;
                                 s_ipAddress := s_ipAddress s |}]) d)
  end.

(** The row [s] after SET token = $1, expires_at = $2 WHERE token = $3. *)
Definition retoken (token : jsstring) (expires : time) (oldToken : jsstring)
    (s : Session) : Session :=
  if jseqb (s_token s) oldToken
  then {| s_id := s_id s; s_userId := s_userId s;
          s_token := token; expiresAt := expires;
          s_userAgent := s_userAgent s; s_ipAddress := s_ipAddress s |}
  else s.

(** UPDATE sessions SET token = $1, expires_at = $2 WHERE token = $3
    ([token] is VARCHAR(255), which the server checks on the value it is
    given, whatever rows match; [token] is UNIQUE: the statement is
    rejected when it would leave two rows with the new token) *)
Definition update_session_token (token : jsstring) (expires : time)
    (oldToken : jsstring) (d : Db) : outcome unit * Db :=
  match varchar 255 token with
  | None => (Throw DatabaseError, d)
  | Some token =>
      let hits := filter (fun s => jseqb (s_token s) oldToken) (sessions d) in
      let others := filter (fun s => negb (jseqb (s_token s) oldToken)
                                     && jseqb (s_token s) token) (sessions d) in
      if negb (Nat.eqb (length hits) 0) && (2 <=? length hits + length others)%nat
      then (Throw DatabaseError, d)
      else (Ok tt,
            set_sessions (List.map (retoken token expires oldToken) (sessions d)) d)
  end.

(** SELECT id FROM folders WHERE id = $1 AND user_id = $2 *)
Definition select_folder (id uid : uuid) (d : Db) : outcome (list Folder) * Db :=
  (Ok (filter (fun f => (f_id f =? id) && (f_userId f =? uid)) (folders d)), d).

(** SELECT * FROM credentials WHERE id = $1 AND user_id = $2 *)
Definition select_credential (id uid : uuid) (d : Db)
    : outcome (list Credential) * Db :=
  (Ok (filter (fun c => (c_id c =? id) && (c_userId c =? uid)) (credentials d)), d).

(** INSERT INTO credentials (...) VALUES (...) RETURNING * *)
Definition insert_credential (c : Credential) (d : Db)
    : outcome (list Credential) * Db :=
  match stored_credential c d with
  | Some row => (Ok [row], set_credentials (credentials d ++ [row]) d)
  | None => (Throw DatabaseError, d)
  end.

(** UPDATE credentials SET <fields>, updated_at = NOW()
    WHERE id = $n AND user_id = $m RETURNING * *)
Definition update_credential (id uid : uuid) (f : Credential -> Credential) (d : Db)
    : outcome (list Credential) * Db :=
  let hit c := (c_id c =? id) && (c_userId c =? uid) in
  (Ok (List.map f (filter hit (credentials d))),
   set_credentials (List.map (fun c => if hit c then f c else c) (credentials d)) d).

Definition set_password_history (l : list PasswordHistory) (d : Db) : Db :=
  {| users := users d; sessions := sessions d; security_audit := security_audit d;
     credentials := credentials d; folders := folders d;
     password_history := l |}.

(** DELETE FROM sessions WHERE token = $1 *)
Definition delete_session (token : jsstring) (d : Db) : outcome unit * Db :=
  (Ok tt, set_sessions (filter (fun s => negb (jseqb (s_token s) token)) (sessions d)) d).

(** SELECT title FROM credentials WHERE id = $1 AND user_id = $2 *)
Definition select_credential_title (id uid : uuid) (d : Db)
    : outcome (list jsstring) * Db :=
  (Ok (List.map title
         (filter (fun c => (c_id c =? id) && (c_userId c =? uid)) (credentials d))), d).

(** DELETE FROM credentials WHERE id = $1 AND user_id = $2
    (the password_history rows of a deleted credential go with it:
    [credential_id ... REFERENCES credentials(id) ON DELETE CASCADE]) *)
Definition delete_credential (id uid : uuid) (d : Db) : outcome unit * Db :=
  let hit c := (c_id c =? id) && (c_userId c =? uid) in
  let gone := List.map c_id (filter hit (credentials d)) in
  (Ok tt,
   set_password_history
     (filter (fun h => negb (existsb (N.eqb (ph_credentialId h)) gone))
             (password_history d))
     (set_credentials (filter (fun c => negb (hit c)) (credentials d)) d)).

(** The row [c] after SET favorite = NOT favorite, updated_at = NOW(). *)
Definition flip_favorite (now : time) (c : Credential) : Credential :=
  {| c_id := c_id c; c_userId := c_userId c; title := title c;
     username := username c; password := password c; url := url c;
     notes := notes c; folderId := folderId c; tags := tags c;
     favorite := negb (favorite c); updatedAt := now |}.

End Sql.

(* ================================================================== *)
(** ** Handlers *)

(** The environment of the server: [process.env], and the time zone of
    the host, through what it makes of
    [d.setDate(d.getDate() + n)] on the [Date] of an instant: the instant
    [n] calendar days later at the same local time of day. *)
Record Env := {
  JWT_SECRET : option jsstring;
  addDays : N -> time -> time
}.

(** The value of a string that is truthy. *)
Definition nonempty (o : option jsstring) : option jsstring :=
  match o with
  | Some (c :: s) => Some (c :: s)
  | _ => None
  end.

Definition is_true (o : option bool) : bool :=
  match o with
  | Some b => b
  | None => false
  end.

Definition DAY : N := 86400000.       (* milliseconds *)

(** What a middleware did: sent a response, or called [next()] after
    setting [req.user]. *)
Inductive Gate :=
| Sent (r : Response)
| Next (u : User).

(** *** AuthMiddleware.createRateLimiter *)

(** An entry of the [requests] map of the limiter. *)
Record RateEntry := { rl_count : N; rl_resetTime : time }.

(** The [Map] from client address to entry. *)
Definition RateMap := list (jsstring * RateEntry).

(** [requests.get(ip)] *)
Fixpoint rl_get (k : jsstring) (m : RateMap) : option RateEntry :=
  match m with
  | [] => None
  | (k', v) :: rest => if jseqb k' k then Some v else rl_get k rest
  end.

(** [requests.set(ip, entry)], also the update in place of an entry. *)
Fixpoint rl_set (k : jsstring) (v : RateEntry) (m : RateMap) : RateMap :=
  match m with
  | [] => [(k, v)]
  | (k', v') :: rest =>
      if jseqb k' k then (k', v) :: rest else (k', v') :: rl_set k v rest
  end.

(** [req.ip || req.connection.remoteAddress || 'unknown'] *)
Definition client_address (ip remoteAddress : option jsstring) : jsstring :=
  match nonempty ip with
  | Some a => a
  | None =>
      match nonempty remoteAddress with
      | Some a => a
      | None => js "unknown"
      end
  end.

(** A request was passed on with [next()], or answered. *)
Inductive Verdict :=
| Passed
| Answered (r : Response).

(** The middleware returned by [createRateLimiter(maxRequests, windowMs)],
    on the map it closes over; the two bounds are natural numbers. *)
Definition rateLimiter (maxRequests windowMs : N) (requests : RateMap)
    (ip remoteAddress : option jsstring) (now : time) : Verdict * RateMap :=
  let ip := client_address ip remoteAddress in
  match rl_get ip requests with
  | None =>
      (Passed, rl_set ip {| rl_count := 1; rl_resetTime := now + windowMs |} requests)
  | Some userRequests =>
      if rl_resetTime userRequests <? now then
        (Passed, rl_set ip {| rl_count := 1; rl_resetTime := now + windowMs |} requests)
      else if maxRequests <=? rl_count userRequests then
        (Answered (failure 429 "Too many requests, please try again later"), requests)
      else
        (Passed, rl_set ip {| rl_count := rl_count userRequests + 1;
                              rl_resetTime := rl_resetTime userRequests |} requests)
  end.


(** *** getPasswordStrength (client, registration page) *)

Record Strength := { score : nat; label : jsstring; color : jsstring }.

Definition is_lower (c : code_unit) : bool := (97 <=? c) && (c <=? 122).
Definition is_upper (c : code_unit) : bool := (65 <=? c) && (c <=? 90).
Definition is_digit (c : code_unit) : bool := (48 <=? c) && (c <=? 57).

(** [regexp.test(password)] for a character class. *)
Definition test (class : code_unit -> bool) (s : jsstring) : bool := existsb class s.

Definition point (b : bool) : nat := if b then 1 else 0.

Definition strength_score (pw : jsstring) : nat :=
  (point (8 <=? length pw)%nat
   + point (test is_lower pw)
   + point (test is_upper pw)
   + point (test is_digit pw)
   + point (test (fun c => negb (is_upper c || is_lower c || is_digit c)) pw))%nat.

Definition labels : list jsstring :=
  [js "Very Weak"; js "Weak"; js "Fair"; js "Good"; js "Strong"].
Definition colors : list jsstring :=
  [js "text-red-500"; js "text-orange-500"; js "text-yellow-500";
   js "text-blue-500"; js "text-green-500"].

(** [list[i] || fallback], for a list of non-empty strings and an index
    that may be -1. *)
Definition pick (l : list jsstring) (score : nat) (fallback : jsstring) : jsstring :=
  match score with
  | O => fallback
  | S i => nth i l fallback
  end.

Definition getPasswordStrength (pw : jsstring) : Strength :=
  match pw with
  | [] => {| score := 0; label := []; color := js "text-gray-400" |}
  | _ :: _ =>
      let score := strength_score pw in
      {| score := score; label := pick labels score [];
         color := pick colors score (js "text-gray-400") |}
  end.

(** Concrete rows, worlds and requests to run the handlers on. *)
Definition K0 : Buffer := List.map (fun i => byte_of_N (N.of_nat i)) (seq 0 32).

Definition alice : User :=
  {| u_id := 1; u_email := js "alice@example.com";
     password_hash := js "$2a$12$CorrectHorseBattery1!";
     master_key_salt := js "00ff"; two_factor_secret := None;
     two_factor_enabled := false; last_login_at := None |}.

(** An account with a second factor enrolled. *)
Definition bob : User :=
  {| u_id := 2; u_email := js "bob@example.com";
     password_hash := js "$2a$12$TroubadorAndStaple9?";
     master_key_salt := js "11ee"; two_factor_secret := Some (js "JBSWY3DPEHPK3PXP");
     two_factor_enabled := true; last_login_at := None |}.

Definition bank : Credential :=
  {| c_id := 7; c_userId := 1; title := js "Bank"; username := js "alice";
     password := js "envelope-0"; url := None; notes := None; folderId := None;
     tags := []; favorite := false; updatedAt := 0 |}.

Definition db0 : Db :=
  {| users := [alice; bob]; sessions := []; security_audit := [];
     credentials := [bank]; folders := []; password_history := [] |}.

Definition world0 : World :=
  {| db := db0; faults := []; entropy := counting_entropy; next_uuid := 100 |}.

(** [world0] with a schedule of query failures. *)
Definition world_with_faults (fs : list bool) : World :=
  {| db := db0; faults := fs; entropy := counting_entropy; next_uuid := 100 |}.

(** A server on UTC, where every calendar day has 24 hours, and one in
    a zone that puts its clocks forward during the day to come. *)
Definition env0 : Env :=
  {| JWT_SECRET := Some (js "s3cret"); addDays := fun n t => t + n * DAY |}.

Definition env_dst : Env :=
  {| JWT_SECRET := Some (js "s3cret");
     addDays := fun n t => t + n * DAY - 3600000 |}.

Definition request {B} (auth : option jsstring) (b : B) (u : option User) (id : uuid)
    : Request B :=
  {| authorization := auth; body := b; ip := Some (js "10.0.0.1");
     userAgent := Some (js "curl"); req_user := u; param_id := id |}.

Definition login_request (mail pw : string) (code : option jsstring) : Request LoginRequest :=
  request None {| l_email := Some (js mail); l_password := Some (js pw);
                  twoFactorCode := code; rememberMe := None |} None 0.

Definition password_update (envelope : string) : Request UpdateCredentialRequest :=
  request None {| up_title := None; up_username := None;
                  up_password := Some (js envelope); up_url := None; up_notes := None;
                  up_folderId := None; up_tags := None; up_favorite := None |}
          (Some alice) 7.

(** A token signed for [alice] at [t] for 24 hours, a session row that
    holds it until 24 hours after [t], and a store with that row. *)
Definition alice_token (t : time) : jsstring :=
  toy_jwt_encode (js "s3cret")
    {| userId := 1; email := js "alice@example.com";
       iat := t / 1000; exp := t / 1000 + 86400 |}.

Definition alice_session (t : time) : Session :=
  {| s_id := 100; s_userId := 1; s_token := alice_token t;
     expiresAt := t + DAY; s_userAgent := Some (js "curl");
     s_ipAddress := Some (js "10.0.0.1") |}.

Definition world1 (t : time) : World :=
  {| db := {| users := [ {| u_id := 1; u_email := js "alice@example.com";
                            password_hash := js "$2a$12$CorrectHorseBattery1!";
                            master_key_salt := js "00ff"; two_factor_secret := None;
                            two_factor_enabled := false; last_login_at := Some t |};
                         bob ];
              sessions := [alice_session t];
              security_audit :=
                [ {| a_userId := 1; action := js "LOGIN_SUCCESS";
                     details := js "User logged in successfully";
                     a_ipAddress := Some (js "10.0.0.1");
                     a_userAgent := Some (js "curl") |} ];
              credentials := [bank]; folders := []; password_history := [] |};
     faults := []; entropy := counting_entropy; next_uuid := 101 |}.

Definition short_registration : Request RegisterRequest :=
  request None {| r_email := Some (js "carol@example.com");
                  r_password := Some (js "2short");
                  confirmPassword := Some (js "2short") |} None 0.

Definition bob_login (code : option jsstring) : Request LoginRequest :=
  login_request "bob@example.com" "TroubadorAndStaple9?" code.

Definition alice_login : Request LoginRequest :=
  login_request "alice@example.com" "CorrectHorseBattery1!" None.

Definition new_credential : Request CreateCredentialRequest :=
  request None {| cr_title := Some (js "Mail"); cr_username := Some (js "alice");
                  cr_password := Some (js "envelope-m"); cr_url := None;
                  cr_notes := None; cr_folderId := None; cr_tags := None;
                  cr_favorite := None |} (Some alice) 0.

Definition bearer (token : jsstring) : option jsstring := Some (js "Bearer " ++ token).

(** A registration that passes the validations, and the same address
    again in another letter case. *)
Definition carol_registration : Request RegisterRequest :=
  request None {| r_email := Some (js "Carol@Example.com");
                  r_password := Some (js "CorrectHorse12");
                  confirmPassword := Some (js "CorrectHorse12") |} None 0.

Definition carol_again : Request RegisterRequest :=
  request None {| r_email := Some (js "carol@example.COM");
                  r_password := Some (js "AnotherHorse34");
                  confirmPassword := Some (js "AnotherHorse34") |} None 0.

(** A registration whose address is 255 letters followed by a space. *)
Definition padded_registration : Request RegisterRequest :=
  request None {| r_email := Some (repeat 97 255 ++ [32]);
                  r_password := Some (js "CorrectHorse12");
                  confirmPassword := Some (js "CorrectHorse12") |} None 0.

(** A request of [alice] on her credential 7, behind the middleware. *)
Definition alice_bank : Request unit := request None tt (Some alice) 7.

(** A refresh of the session of [alice] issued at [t], as the middleware
    hands it to the handler. *)
Definition alice_refresh (t : time) : Request unit :=
  request (bearer (alice_token t)) tt (Some alice) 0.

Section Handlers.

Context {NC : NodeCrypto} {AL : AuthLibs}.

Variable env : Env.

(** [EncryptionService.hashPassword]: bcrypt with cost 12 and a fresh salt. *)
Definition hashPassword (pw : jsstring) : M jsstring :=
  with_entropy (fun e => let (s, e') := randomBytes 16 e in (bcrypt_hash pw 12 s, e')).

(** [EncryptionService.verifyPassword]: [bcrypt.compare] rejects with
    an [Error] when its second argument is not a string. *)
Definition verifyPassword (pw : jsstring) (hash : value) : M bool :=
  match hash with
  | Str h => ret (bcrypt_compare pw h)
  | _ => throw IllegalArguments
  end.

(** [jwt.sign({userId, email}, secret, {expiresIn})] at time [now]. *)
Definition jwt_sign (uid : uuid) (mail secret : jsstring) (expiresIn : N)
    (now : time) : jsstring :=
  jwt_encode secret {| userId := uid; email := mail;
                       iat := now / 1000; exp := now / 1000 + expiresIn |}.

(** [jwt.verify(token, secret)] at time [now]. *)
Definition jwt_verify (token secret : jsstring) (now : time) : M JWTPayload :=
  match jwt_decode secret token with
  | None => throw JsonWebTokenError
  | Some p => if exp p <=? now / 1000 then throw TokenExpiredError else ret p
  end.

(** [authenticator.verify({token, secret})] of otplib *)
Definition authenticator_verify (token : jsstring) (secret : value)
    (now : time) : M bool :=
  match secret with
  | Str s => ret (authenticator_check token s now)
  | _ => throw TypeError
  end.

Definition audit {B} (uid : uuid) (act : string) (det : jsstring) (req : Request B)
    : SecurityAudit :=
  {| a_userId := uid; action := js act; details := det;
     a_ipAddress := ip req; a_userAgent := userAgent req |}.

(** *** AuthMiddleware.authenticate *)
Definition authenticate {B} (now : time) (req : Request B) : M Gate :=
  try_catch
    (match nonempty (authorization req) with
     | None => ret (Sent (failure 401 "Access token required"))
     | Some authHeader =>
         if negb (startsWith authHeader (js "Bearer "))
         then ret (Sent (failure 401 "Access token required"))
         else
           let token := substring 7 authHeader in
           match nonempty (JWT_SECRET env) with
           | None => ret (Sent (failure 500 "Server configuration error"))
           | Some secret =>
               decoded <- jwt_verify token secret now ;;
               sessionResult <- query (Sql.select_valid_sessions token now) ;;
               match sessionResult with
               | [] => ret (Sent (failure 401 "Invalid or expired session"))
               | _ :: _ =>
                   userResult <- query (Sql.select_users_by_id (userId decoded)) ;;
                   match userResult with
                   | [] => ret (Sent (failure 401 "User not found"))
                   | user :: _ => ret (Next user)
                   end
               end
           end
     end)
    (fun error =>
       if instanceof_JsonWebTokenError error
       then ret (Sent (failure 401 "Invalid token"))
       else if instanceof_TokenExpiredError error
       then ret (Sent (failure 401 "Token expired"))
       else ret (Sent (failure 500 "Authentication failed"))).

(** A route mounted behind [protectedRouter.use(AuthMiddleware.authenticate)]:
    the middleware, then the handler, with no other request in between. *)
Definition protected {B} (handler : time -> Request B -> M Response)
    (now : time) (req : Request B) : M Response :=
  g <- authenticate now req ;;
  match g with
  | Sent r => ret r
  | Next u =>
      handler now {| authorization := authorization req; body := body req;
                     ip := ip req; userAgent := userAgent req;
                     req_user := Some u; param_id := param_id req |}
  end.

(** *** AuthController.register *)
Definition register (now : time) (req : Request RegisterRequest) : M Response :=
  try_catch
    (match nonempty (r_email (body req)), nonempty (r_password (body req)),
           nonempty (confirmPassword (body req)) with
     | Some mail, Some pw, Some confirm =>
         if negb (jseqb pw confirm)
         then ret (failure 400 "Passwords do not match")
         else if (length pw <? 12)%nat
         then ret (failure 400 "Password must be at least 12 characters long")
         else
           existingUser <- query (Sql.select_users_by_email (toLowerCase mail)) ;;
           match existingUser with
           | _ :: _ => ret (failure 409 "User with this email already exists")
           | [] =>
               pwHash <- hashPassword pw ;;
               mkSalt <- with_entropy generateSalt ;;
               id <- uuidv4 ;;
               userResult <- query (Sql.insert_user id (toLowerCase mail) pwHash mkSalt) ;;
               match userResult with
               | [] => throw TypeError
               | user :: _ =>
                   await query (Sql.insert_audit
                            (audit (u_id user) "USER_REGISTERED"
                                   (js "New user account created") req)) ;;
                   ret (reply 201 (Some "User registered successfully"%string)
                          (Some (RegisterData (u_id user) (u_email user)
                                              (property user "masterKeySalt"))))
               end
           end
     | _, _, _ => ret (failure 400 "All fields are required")
     end)
    (fun _ => ret (failure 500 "Registration failed")).

(** The second-factor block of [login]: [Some r] when it answered [r]
    and returned, [None] when login goes on. *)
Definition login_second_factor (now : time) (req : Request LoginRequest)
    (user : User) : M (option Response) :=
  if truthy_value (property user "twoFactorEnabled") then
    match nonempty (twoFactorCode (body req)) with
    | None => ret (Some (failure 400 "Two-factor authentication code required"))
    | Some code =>
        isValidTOTP <- authenticator_verify code (property user "twoFactorSecret") now ;;
        if negb isValidTOTP then
          await query (Sql.insert_audit
                   (audit (u_id user) "LOGIN_FAILED" (js "Invalid 2FA code") req)) ;;
          ret (Some (failure 401 "Invalid two-factor authentication code"))
        else ret None
    end
  else ret None.

(** The rest of [login], once the checks have passed.  The request is
    handled at one instant [now]. *)
Definition login_issue (now : time) (req : Request LoginRequest) (user : User)
    : M Response :=
  match nonempty (JWT_SECRET env) with
  | None => ret (failure 500 "Server configuration error")
  | Some secret =>
      let remember := is_true (rememberMe (body req)) in
      let expiresIn := if remember then 604800 else 86400 in    (* '7d' : '24h' *)
      let token := jwt_sign (u_id user) (u_email user) secret expiresIn now in
      sessionId <- uuidv4 ;;
      let expiresAt := addDays env (if remember then 7 else 1) now in
      await query (Sql.insert_session
               {| s_id := sessionId; s_userId := u_id user; s_token := token;
                  expiresAt := expiresAt; s_userAgent := userAgent req;
                  s_ipAddress := ip req |}) ;;
      await query (Sql.update_last_login (u_id user) now) ;;
      await query (Sql.insert_audit
               (audit (u_id user) "LOGIN_SUCCESS"
                      (js "User logged in successfully") req)) ;;
      ret (reply 200 (Some "Login successful"%string)
             (Some (LoginData token (u_id user) (u_email user)
                              (property user "twoFactorEnabled")
                              (property user "masterKeySalt"))))
  end.

(** *** AuthController.login *)
Definition login (now : time) (req : Request LoginRequest) : M Response :=
  try_catch
    (match nonempty (l_email (body req)), nonempty (l_password (body req)) with
     | Some mail, Some pw =>
         userResult <- query (Sql.select_users_by_email (toLowerCase mail)) ;;
         match userResult with
         | [] => ret (failure 401 "Invalid credentials")
         | user :: _ =>
             isValidPassword <- verifyPassword pw (property user "passwordHash") ;;
             if negb isValidPassword then
               await query (Sql.insert_audit
                        (audit (u_id user) "LOGIN_FAILED" (js "Invalid password") req)) ;;
               ret (failure 401 "Invalid credentials")
             else
               answered <- login_second_factor now req user ;;
               match answered with
               | Some r => ret r
               | None => login_issue now req user
               end
         end
     | _, _ => ret (failure 400 "Email and password are required")
     end)
    (fun _ => ret (failure 500 "Login failed")).

(** *** AuthController.refreshToken *)
Definition refreshToken {B} (now : time) (req : Request B) : M Response :=
  try_catch
    (match req_user req with
     | None => ret (failure 401 "Not authenticated")
     | Some user =>
         match nonempty (JWT_SECRET env) with
         | None => ret (failure 500 "Server configuration error")
         | Some secret =>
             let token := jwt_sign (u_id user) (u_email user) secret 86400 now in
             await (match nonempty (authorization req) with
                | Some authHeader =>
                    if startsWith authHeader (js "Bearer ") then
                      let oldToken := substring 7 authHeader in
                      let expiresAt := addDays env 1 now in
                      query (Sql.update_session_token token expiresAt oldToken)
                    else ret tt
                | None => ret tt
                end) ;;
             ret (reply 200 None (Some (TokenData token)))
         end
     end)
    (fun _ => ret (failure 500 "Failed to refresh token")).

(** *** CredentialsController.create *)
Definition create (now : time) (req : Request CreateCredentialRequest) : M Response :=
  try_catch
    (match req_user req with
     | None => ret (failure 401 "Not authenticated")
     | Some user =>
         let b := body req in
         match nonempty (cr_title b), nonempty (cr_username b),
               nonempty (cr_password b) with
         | Some t, Some un, Some pw =>
             folderOk <- match cr_folderId b with
                         | Some fid =>
                             folderResult <- query (Sql.select_folder fid (u_id user)) ;;
                             ret (negb (Nat.eqb (length folderResult) 0))
                         | None => ret true
                         end ;;
             if negb folderOk then ret (failure 400 "Invalid folder")
             else
               id <- uuidv4 ;;
               credentialResult <-
                 query (Sql.insert_credential
                          {| c_id := id; c_userId := u_id user; title := t;
                             username := un;
                             password := pw;   (* sealed on the client side *)
                             url := nonempty (cr_url b);
                             notes := nonempty (cr_notes b);
                             folderId := cr_folderId b;
                             tags := match cr_tags b with Some l => l | None => [] end;
                             favorite := is_true (cr_favorite b);
                             updatedAt := now |}) ;;
               let credential := hd_error credentialResult in
               await query (Sql.insert_audit
                        (audit (u_id user) "CREDENTIAL_CREATED"
                               (js "Created credential: " ++ t) req)) ;;
               ret (reply 201 (Some "Credential created successfully"%string)
                      (option_map CredentialData credential))
         | _, _, _ => ret (failure 400 "Title, username, and password are required")
         end
     end)
    (fun _ => ret (failure 500 "Failed to create credential")).

Definition or_else {A} (o : option A) (a : A) : A :=
  match o with
  | Some x => x
  | None => a
  end.

Definition defined {A} (o : option A) : nat :=
  match o with
  | Some _ => 1
  | None => 0
  end.

(** Number of entries of [updateData] that are not [undefined]. *)
Definition updateFields (u : UpdateCredentialRequest) : nat :=
  (defined (up_title u) + defined (up_username u) + defined (up_password u)
   + defined (up_url u) + defined (up_notes u) + defined (up_folderId u)
   + defined (up_tags u) + defined (up_favorite u))%nat.

(** The assignments of the UPDATE statement built from [updateData]:
    one per defined entry, and [updated_at = NOW()].  The body is read at
    the fields of [UpdateCredentialRequest]; the code builds the SET
    clause from every key of [req.body], and a body with other keys is
    not covered here. *)
Definition assign (u : UpdateCredentialRequest) (now : time) (c : Credential)
    : Credential :=
  {| c_id := c_id c; c_userId := c_userId c;
     title := or_else (up_title u) (title c);
     username := or_else (up_username u) (username c);
     password := or_else (up_password u) (password c);
     url := match up_url u with Some x => Some x | None => url c end;
     notes := match up_notes u with Some x => Some x | None => notes c end;
     folderId := match up_folderId u with Some x => Some x | None => folderId c end;
     tags := or_else (up_tags u) (tags c);
     favorite := or_else (up_favorite u) (favorite c);
     updatedAt := now |}.

(** *** CredentialsController.update *)
Definition update (now : time) (req : Request UpdateCredentialRequest) : M Response :=
  try_catch
    (match req_user req with
     | None => ret (failure 401 "Not authenticated")
     | Some user =>
         let id := param_id req in
         let updateData := body req in
         existingResult <- query (Sql.select_credential id (u_id user)) ;;
         match existingResult with
         | [] => ret (failure 404 "Credential not found")
         | existingCredential :: _ =>
             folderOk <- match up_folderId updateData with
                         | Some fid =>
                             folderResult <- query (Sql.select_folder fid (u_id user)) ;;
                             ret (negb (Nat.eqb (length folderResult) 0))
                         | None => ret true
                         end ;;
             if negb folderOk then ret (failure 400 "Invalid folder")
             else if Nat.eqb (updateFields updateData) 0
             then ret (failure 400 "No fields to update")
             else
               result <- query (Sql.update_credential id (u_id user)
                                  (assign updateData now)) ;;
               match result with
               | [] => throw TypeError
               | updatedCredential :: _ =>
                   await query (Sql.insert_audit
                            (audit (u_id user) "CREDENTIAL_UPDATED"
                                   (js "Updated credential: " ++ title updatedCredential)
                                   req)) ;;
                   ret (reply 200 (Some "Credential updated successfully"%string)
                          (Some (CredentialData updatedCredential)))
               end
         end
     end)
    (fun _ => ret (failure 500 "Failed to update credential")).

(** [n] updates of a credential in a row, each with its own request. *)
Fixpoint updates (now : time) (reqs : list (Request UpdateCredentialRequest))
    (w : World) : list Response * World :=
  match reqs with
  | [] => ([], w)
  | r :: rest =>
      match update now r w with
      | (Ok resp, w') => let (rs, w'') := updates (now + 1) rest w' in (resp :: rs, w'')
      | (Throw _, w') => ([], w')
      end
  end.

(** *** AuthMiddleware.optionalAuth *)

(** The middleware always calls [next()]; the result is [req.user] at
    that point. *)
Definition optionalAuth {B} (now : time) (req : Request B) : M (option User) :=
  try_catch
    (match nonempty (authorization req) with
     | None => ret (req_user req)
     | Some authHeader =>
         if negb (startsWith authHeader (js "Bearer "))
         then ret (req_user req)
         else
           let token := substring 7 authHeader in
           match nonempty (JWT_SECRET env) with
           | None => ret (req_user req)
           | Some secret =>
               decoded <- jwt_verify token secret now ;;
               sessionResult <- query (Sql.select_valid_sessions token now) ;;
               match sessionResult with
               | _ :: _ =>
                   userResult <- query (Sql.select_users_by_id (userId decoded)) ;;
                   match userResult with
                   | user :: _ => ret (Some user)
                   | [] => ret (req_user req)
                   end
               | [] => ret (req_user req)
               end
           end
     end)
    (fun _ => ret (req_user req)).

(** *** AuthController.logout *)
Definition logout {B} (now : time) (req : Request B) : M Response :=
  try_catch
    (match req_user req with
     | None => ret (failure 401 "Not authenticated")
     | Some user =>
         await (match nonempty (authorization req) with
            | Some authHeader =>
                if startsWith authHeader (js "Bearer ") then
                  let token := substring 7 authHeader in
                  query (Sql.delete_session token)
                else ret tt
            | None => ret tt
            end) ;;
         await query (Sql.insert_audit
                  (audit (u_id user) "LOGOUT" (js "User logged out") req)) ;;
         ret (reply 200 (Some "Logout successful"%string) None)
     end)
    (fun _ => ret (failure 500 "Logout failed")).

(** *** CredentialsController.delete *)
Definition delete {B} (now : time) (req : Request B) : M Response :=
  try_catch
    (match req_user req with
     | None => ret (failure 401 "Not authenticated")
     | Some user =>
         let id := param_id req in
         existingResult <- query (Sql.select_credential_title id (u_id user)) ;;
         match existingResult with
         | [] => ret (failure 404 "Credential not found")
         | credentialTitle :: _ =>
             await query (Sql.delete_credential id (u_id user)) ;;
             await query (Sql.insert_audit
                      (audit (u_id user) "CREDENTIAL_DELETED"
                             (js "Deleted credential: " ++ credentialTitle) req)) ;;
             ret (reply 200 (Some "Credential deleted successfully"%string) None)
         end
     end)
    (fun _ => ret (failure 500 "Failed to delete credential")).

(** *** CredentialsController.toggleFavorite *)
Definition toggleFavorite {B} (now : time) (req : Request B) : M Response :=
  try_catch
    (match req_user req with
     | None => ret (failure 401 "Not authenticated")
     | Some user =>
         let id := param_id req in
         result <- query (Sql.update_credential id (u_id user) (Sql.flip_favorite now)) ;;
         match result with
         | [] => ret (failure 404 "Credential not found")
         | credential :: _ =>
             ret (reply 200
                    (Some (if favorite credential
                           then "Credential added to favorites"
                           else "Credential removed from favorites")%string)
                    (Some (CredentialData credential)))
         end
     end)
    (fun _ => ret (failure 500 "Failed to toggle favorite")).

(** *** Reading the handlers *)

(** [m] leaves the observation [f] of the store as it was, whatever the
    world it runs in. *)
Definition preserves {A T} (f : Db -> T) (m : M A) : Prop :=
  forall w, f (db (snd (m w))) = f (db w).

Definition statement_preserves {A T} (f : Db -> T) (st : Db -> outcome A * Db) : Prop :=
  forall d, f (snd (st d)) = f d.

(** The row [create] asks the database to insert. *)
Definition requested_credential (now : time) (req : Request CreateCredentialRequest)
    (user : User) (t un pw : jsstring) (id : uuid) : Credential :=
  {| c_id := id; c_userId := u_id user; title := t; username := un;
     password := pw;
     url := nonempty (cr_url (body req));
     notes := nonempty (cr_notes (body req));
     folderId := cr_folderId (body req);
     tags := match cr_tags (body req) with Some l => l | None => [] end;
     favorite := is_true (cr_favorite (body req));
     updatedAt := now |}.

(** [m] only adds rows at the end of the table observed by [f]. *)
Definition appends {A T} (f : Db -> list T) (m : M A) : Prop :=
  forall w, exists rows, f (db (snd (m w))) = f (db w) ++ rows.

(** No two session rows hold the same token (the column is UNIQUE). *)
Definition unique_tokens (d : Db) : Prop := NoDup (List.map s_token (sessions d)).

(** The fields of a user row that authenticate its owner. *)
Definition identity (u : User)
    : uuid * jsstring * jsstring * jsstring * option jsstring * bool :=
  (u_id u, u_email u, password_hash u, master_key_salt u, two_factor_secret u,
   two_factor_enabled u).

(** The credential rows that do not belong to [uid]. *)
Definition credentials_of_others (uid : uuid) (d : Db) : list Credential :=
  filter (fun c => negb (c_userId c =? uid)) (credentials d).

(** What a credential row holds, its time of update apart. *)
Definition content (c : Credential) :=
  (c_id c, c_userId c, title c, username c, password c, url c, notes c,
   folderId c, tags c, favorite c).

(** The condition [id = $1 AND user_id = $2] on a credential row. *)
Definition owned (id uid : uuid) (c : Credential) : bool :=
  (c_id c =? id) && (c_userId c =? uid).

(* ================================================================ *)
(** ** Bytes, hex and UTF-8 *)

Ltac lia_div := zify; Z.to_euclidean_division_equations; lia.

Lemma to_N_byte_of_N (n : N) : Byte.to_N (byte_of_N n) = n mod 256.
Proof.
  unfold byte_of_N.
  destruct (Byte.of_N (n mod 256)) as [b|] eqn:E.
  - now apply Byte.to_of_N.
  - apply Byte.of_N_None_iff in E. lia_div.
Qed.

Lemma to_N_byte_of_N_small (n : N) : n < 256 -> Byte.to_N (byte_of_N n) = n.
Proof. intros H. rewrite to_N_byte_of_N. now apply N.mod_small. Qed.

Lemma byte_of_N_to_N (b : byte) : byte_of_N (Byte.to_N b) = b.
Proof.
  unfold byte_of_N. pose proof (Byte.to_N_bounded b).
  rewrite N.mod_small by lia. now rewrite Byte.of_to_N.
Qed.

Lemma lxor_byte_bound (a b : N) : a < 256 -> b < 256 -> N.lxor a b < 256.
Proof.
  intros Ha Hb.
  destruct (N.eq_dec (N.lxor a b) 0) as [->|Hz]; [lia|].
  apply N.log2_lt_pow2 with (b := 8); [lia|].
  eapply N.le_lt_trans; [apply N.log2_lxor|].
  apply N.max_lub_lt.
  - destruct (N.eq_dec a 0) as [->|]; [cbn; lia|]. apply N.log2_lt_pow2; lia.
  - destruct (N.eq_dec b 0) as [->|]; [cbn; lia|]. apply N.log2_lt_pow2; lia.
Qed.

Lemma byte_xor_involutive (a k : byte) : byte_xor (byte_xor a k) k = a.
Proof.
  unfold byte_xor.
  pose proof (Byte.to_N_bounded a). pose proof (Byte.to_N_bounded k).
  rewrite to_N_byte_of_N_small by (apply lxor_byte_bound; lia).
  rewrite N.lxor_assoc, N.lxor_nilpotent, N.lxor_0_r.
  apply byte_of_N_to_N.
Qed.

Ltac bools :=
  repeat match goal with
    | H : (_ && _)%bool = true |- _ => apply andb_prop in H; destruct H
    | H : (_ || _)%bool = true |- _ => apply orb_prop in H; destruct H
    | H : negb _ = true |- _ => apply negb_true_iff in H
    | H : (_ <? _) = true |- _ => apply N.ltb_lt in H
    | H : (_ <? _) = false |- _ => apply N.ltb_ge in H
    | H : (_ <=? _) = true |- _ => apply N.leb_le in H
    | H : (_ <=? _) = false |- _ => apply N.leb_gt in H
    | H : (_ =? _) = true |- _ => apply N.eqb_eq in H
    | H : (_ =? _) = false |- _ => apply N.eqb_neq in H
    | H : (_ && _)%bool = false |- _ => apply andb_false_iff in H; destruct H
    end.

(** Decides the comparisons of the goal, closing impossible branches. *)
Ltac decide_cmp :=
  repeat match goal with
    | |- context [?a <? ?b] =>
        let E := fresh "E" in destruct (a <? b) eqn:E; bools; try lia
    | |- context [?a <=? ?b] =>
        let E := fresh "E" in destruct (a <=? b) eqn:E; bools; try lia
    end.

(** Rewrites the comparisons of the goal that the context settles. *)
Ltac eval_cmp :=
  repeat match goal with
    | |- context [?a <? ?b] =>
        first [ replace (a <? b) with true by (symmetry; apply N.ltb_lt; lia)
              | replace (a <? b) with false by (symmetry; apply N.ltb_ge; lia) ]
    | |- context [?a <=? ?b] =>
        first [ replace (a <=? b) with true by (symmetry; apply N.leb_le; lia)
              | replace (a <=? b) with false by (symmetry; apply N.leb_gt; lia) ]
    end.

Lemma hex_value_digit (n : N) : n < 16 -> Hex.value (Hex.digit n) = Some n.
Proof.
  intros H. unfold Hex.value, Hex.digit. cbv zeta.
  destruct (n <? 10) eqn:E; bools; rewrite N.mod_small by lia;
    decide_cmp; cbn [andb]; f_equal; lia.
Qed.

Lemma hex_digit_value (c : code_unit) :
  Hex.is_lower_digit c = true ->
  exists n, Hex.value c = Some n /\ n < 16 /\ Hex.digit n = c.
Proof.
  unfold Hex.is_lower_digit, Hex.value, Hex.digit. intros H. cbv zeta.
  bools; rewrite N.mod_small by lia.
  - exists (c - 48). replace (48 <=? c) with true by (symmetry; apply N.leb_le; lia).
    replace (c <=? 57) with true by (symmetry; apply N.leb_le; lia).
    cbn [andb]. repeat split; try lia; decide_cmp; lia.
  - exists (c - 87).
    replace (c <=? 57) with false by (symmetry; apply N.leb_gt; lia).
    rewrite andb_false_r.
    replace (97 <=? c) with true by (symmetry; apply N.leb_le; lia).
    replace (c <=? 102) with true by (symmetry; apply N.leb_le; lia).
    cbn [andb]. repeat split; try lia; decide_cmp; lia.
Qed.

(** Decoding the hex form of a buffer gives the buffer back. *)
Lemma hex_decode_encode (b : Buffer) : Hex.decode (Hex.encode b) = b.
Proof.
  induction b as [|x b IH]; [reflexivity|].
  cbn [Hex.encode flat_map app Hex.decode].
  pose proof (Byte.to_N_bounded x) as Hx.
  rewrite !hex_value_digit by lia_div.
  fold (Hex.encode b). rewrite IH. f_equal.
  replace (16 * (Byte.to_N x / 16) + Byte.to_N x mod 16) with (Byte.to_N x) by lia_div.
  apply byte_of_N_to_N.
Qed.

(** Induction over a list two elements at a time. *)
Lemma pair_induction {A} (P : list A -> Prop) :
  P [] -> (forall x, P [x]) -> (forall x y l, P l -> P (x :: y :: l)) ->
  forall l, P l.
Proof.
  intros H0 H1 H2.
  assert (forall l, P l /\ forall x, P (x :: l)) as H.
  { induction l as [|y l [IH1 IH2]]; split; auto. }
  intros l. apply H.
Qed.

(** The hex form of a decoded string is the string itself when it is
    made of pairs of lower-case hex digits. *)
Lemma hex_encode_decode (s : jsstring) :
  Hex.canonical s = true -> Hex.encode (Hex.decode s) = s.
Proof.
  induction s as [| x | h l s IH] using pair_induction; intros H;
    [reflexivity | discriminate |].
  cbn [Hex.canonical] in H. bools.
  destruct (hex_digit_value h) as (a & Ha & La & Da); [assumption|].
  destruct (hex_digit_value l) as (b & Hb & Lb & Db); [assumption|].
  cbn [Hex.decode]. rewrite Ha, Hb.
  cbn [Hex.encode flat_map app]. fold (Hex.encode (Hex.decode s)).
  rewrite IH by assumption.
  rewrite to_N_byte_of_N_small by lia.
  replace ((16 * a + b) / 16) with a by lia_div.
  replace ((16 * a + b) mod 16) with b by lia_div.
  now rewrite Da, Db.
Qed.

Lemma hex_canonical_encode (b : Buffer) : Hex.canonical (Hex.encode b) = true.
Proof.
  induction b as [|x b IH]; [reflexivity|].
  cbn [Hex.encode flat_map app Hex.canonical]. fold (Hex.encode b). rewrite IH.
  pose proof (Byte.to_N_bounded x).
  assert (forall n, n < 16 -> Hex.is_lower_digit (Hex.digit n) = true) as D.
  { intros n Hn. unfold Hex.is_lower_digit, Hex.digit.
    decide_cmp; reflexivity. }
  rewrite !D by lia_div. reflexivity.
Qed.

Lemma split64 (n : N) : n = 64 * (n / 64) + n mod 64 /\ n mod 64 < 64.
Proof. split; [apply N.div_mod; lia | apply N.mod_lt; lia]. Qed.

Lemma div_64_64 (n : N) : n / 64 / 64 = n / 4096.
Proof. rewrite N.Div0.div_div. reflexivity. Qed.

Lemma div_4096_64 (n : N) : n / 4096 / 64 = n / 262144.
Proof. rewrite N.Div0.div_div. reflexivity. Qed.

(** The four shapes of a well-formed sequence at the head of a buffer. *)
Lemma utf8_decode_1 (b0 : byte) (t0 : Buffer) :
  (Byte.to_N b0 <? 0x80) = true ->
  Utf8.decode (b0 :: t0) = Byte.to_N b0 :: Utf8.decode t0.
Proof. intros H. cbn [Utf8.decode]; cbv zeta. now rewrite H. Qed.

Lemma utf8_decode_2 (b0 b1 : byte) (t1 : Buffer) :
  (Byte.to_N b0 <? 0x80) = false ->
  ((0xC2 <=? Byte.to_N b0) && (Byte.to_N b0 <? 0xE0)) = true ->
  Utf8.is_cont (Byte.to_N b1) = true ->
  Utf8.decode (b0 :: b1 :: t1)
  = Utf8.units ((Byte.to_N b0 - 0xC0) * 64 + (Byte.to_N b1 - 0x80)) ++ Utf8.decode t1.
Proof. intros H0 H1 H2. cbn [Utf8.decode]; cbv zeta. now rewrite H0, H1, H2. Qed.

Lemma utf8_decode_3 (b0 b1 b2 : byte) (t2 : Buffer) :
  (Byte.to_N b0 <? 0x80) = false ->
  ((0xC2 <=? Byte.to_N b0) && (Byte.to_N b0 <? 0xE0)) = false ->
  ((0xE0 <=? Byte.to_N b0) && (Byte.to_N b0 <? 0xF0)) = true ->
  Utf8.second (Byte.to_N b0) (Byte.to_N b1) = true ->
  Utf8.is_cont (Byte.to_N b2) = true ->
  Utf8.decode (b0 :: b1 :: b2 :: t2)
  = Utf8.units ((Byte.to_N b0 - 0xE0) * 4096 + (Byte.to_N b1 - 0x80) * 64
                + (Byte.to_N b2 - 0x80)) ++ Utf8.decode t2.
Proof.
  intros H0 H1 H2 H3 H4. cbn [Utf8.decode]; cbv zeta.
  now rewrite H0, H1, H2, H3, H4.
Qed.

Lemma utf8_decode_4 (b0 b1 b2 b3 : byte) (t3 : Buffer) :
  (Byte.to_N b0 <? 0x80) = false ->
  ((0xC2 <=? Byte.to_N b0) && (Byte.to_N b0 <? 0xE0)) = false ->
  ((0xE0 <=? Byte.to_N b0) && (Byte.to_N b0 <? 0xF0)) = false ->
  ((0xF0 <=? Byte.to_N b0) && (Byte.to_N b0 <? 0xF5)) = true ->
  Utf8.second (Byte.to_N b0) (Byte.to_N b1) = true ->
  Utf8.is_cont (Byte.to_N b2) = true ->
  Utf8.is_cont (Byte.to_N b3) = true ->
  Utf8.decode (b0 :: b1 :: b2 :: b3 :: t3)
  = Utf8.units ((Byte.to_N b0 - 0xF0) * 262144 + (Byte.to_N b1 - 0x80) * 4096
                + (Byte.to_N b2 - 0x80) * 64 + (Byte.to_N b3 - 0x80))
    ++ Utf8.decode t3.
Proof.
  intros H0 H1 H2 H3 H4 H5 H6. cbn [Utf8.decode]; cbv zeta.
  now rewrite H0, H1, H2, H3, H4, H5, H6.
Qed.

Ltac utf8_side :=
  cbv zeta; unfold Utf8.second, Utf8.is_cont;
  rewrite ?to_N_byte_of_N_small by lia;
  repeat match goal with
    | |- context [?a =? ?b] =>
        first [ replace (a =? b) with true by (symmetry; apply N.eqb_eq; lia)
              | replace (a =? b) with false by (symmetry; apply N.eqb_neq; lia)
              | destruct (N.eqb_spec a b) ]
    end;
  eval_cmp; reflexivity.

(** One code point, encoded and followed by any bytes, decodes to its
    code units followed by the decoding of those bytes. *)
Lemma utf8_decode_code_point (cp : N) (bs : Buffer) :
  cp < 0xD800 \/ (0xE000 <= cp /\ cp < 0x110000) ->
  Utf8.decode (Utf8.of_code_point cp ++ bs) = Utf8.units cp ++ Utf8.decode bs.
Proof.
  intros Hcp. unfold Utf8.of_code_point.
  destruct (cp <? 0x80) eqn:E1; [|destruct (cp <? 0x800) eqn:E2;
    [|destruct (cp <? 0x10000) eqn:E3]]; bools; cbn [app].
  - rewrite utf8_decode_1 by utf8_side.
    rewrite to_N_byte_of_N_small by lia.
    unfold Utf8.units. now replace (cp <? 65536) with true by (symmetry; apply N.ltb_lt; lia).
  - remember (cp / 64) as q eqn:Eq. remember (cp mod 64) as r eqn:Er.
    assert (cp = 64 * q + r /\ r < 64) as [Hc Hr] by (subst q r; apply split64).
    clear Eq Er.
    rewrite utf8_decode_2 by utf8_side.
    rewrite !to_N_byte_of_N_small by lia.
    do 2 f_equal. lia.
  - remember (cp / 4096) as q1 eqn:E1'. remember ((cp / 64) mod 64) as q2 eqn:E2'.
    remember (cp mod 64) as r eqn:Er.
    assert (cp = 4096 * q1 + 64 * q2 + r /\ q2 < 64 /\ r < 64) as (Hc & H2 & Hr)
      by (subst q1 q2 r; pose proof (split64 cp); pose proof (split64 (cp / 64));
          rewrite div_64_64 in *; lia).
    clear E1' E2' Er.
    destruct Hcp as [Hcp|Hcp]; rewrite utf8_decode_3 by utf8_side;
      rewrite !to_N_byte_of_N_small by lia; do 2 f_equal; lia.
  - remember (cp / 262144) as q0 eqn:E0'.
    remember ((cp / 4096) mod 64) as q1 eqn:E1'.
    remember ((cp / 64) mod 64) as q2 eqn:E2'.
    remember (cp mod 64) as r eqn:Er.
    assert (cp = 262144 * q0 + 4096 * q1 + 64 * q2 + r /\ q1 < 64 /\ q2 < 64 /\ r < 64)
      as (Hc & H1 & H2 & Hr)
      by (subst q0 q1 q2 r; pose proof (split64 cp); pose proof (split64 (cp / 64));
          pose proof (split64 (cp / 4096));
          rewrite div_64_64, ?div_4096_64 in *; lia).
    clear E0' E1' E2' Er.
    rewrite utf8_decode_4 by utf8_side.
    rewrite !to_N_byte_of_N_small by lia.
    do 2 f_equal. lia.
Qed.

Lemma utf8_units_bmp (c : N) : c < 0x10000 -> Utf8.units c = [c].
Proof. intros H. unfold Utf8.units. now replace (c <? 65536) with true by (symmetry; apply N.ltb_lt; lia). Qed.

Lemma utf8_units_pair (h l : N) :
  is_high_surrogate h = true -> is_low_surrogate l = true ->
  Utf8.units (0x10000 + (h - 0xD800) * 1024 + (l - 0xDC00)) = [h; l].
Proof.
  unfold is_high_surrogate, is_low_surrogate, Utf8.units. intros Hh Hl. bools.
  replace (65536 + (h - 55296) * 1024 + (l - 56320) <? 65536) with false
    by (symmetry; apply N.ltb_ge; lia).
  replace (65536 + (h - 55296) * 1024 + (l - 56320) - 65536)
    with ((h - 55296) * 1024 + (l - 56320)) by lia.
  assert (l - 56320 < 1024) as Hb by lia.
  assert (55296 + (h - 55296) = h) as Ha by lia.
  assert (56320 + (l - 56320) = l) as Hc by lia.
  remember (h - 55296) as a. remember (l - 56320) as b.
  replace ((a * 1024 + b) / 1024) with a by lia_div.
  replace ((a * 1024 + b) mod 1024) with b by lia_div.
  now rewrite Ha, Hc.
Qed.

Lemma well_formed_tail (x : code_unit) (l : jsstring) :
  is_high_surrogate x = false -> well_formed (x :: l) = true -> well_formed l = true.
Proof. intros Hx H. cbn [well_formed] in H. rewrite Hx in H. now bools. Qed.

(** UTF-8 decoding inverts UTF-8 encoding on well-formed strings. *)
Lemma utf8_decode_encode (s : jsstring) :
  well_formed s = true -> Utf8.decode (Utf8.encode s) = s.
Proof.
  enough (forall l, (well_formed l = true -> Utf8.decode (Utf8.encode l) = l)
                    /\ (forall x, well_formed (x :: l) = true ->
                                  Utf8.decode (Utf8.encode (x :: l)) = x :: l)) as H
    by apply H.
  assert (forall x l, is_high_surrogate x = false -> well_formed (x :: l) = true ->
                      Utf8.decode (Utf8.encode l) = l ->
                      Utf8.decode (Utf8.encode (x :: l)) = x :: l) as Single.
  { intros x l Hx Hw IH. cbn [well_formed Utf8.encode] in *. rewrite Hx in *.
    bools. rewrite H. rewrite utf8_decode_code_point.
    - rewrite utf8_units_bmp by assumption. now rewrite IH.
    - unfold is_high_surrogate, is_low_surrogate in *. bools; lia. }
  induction l as [|y l [IH1 IH2]]; split.
  - reflexivity.
  - intros x Hw. destruct (is_high_surrogate x) eqn:Hx.
    + cbn [well_formed] in Hw. now rewrite Hx in Hw.
    + now apply Single.
  - exact (IH2 y).
  - intros x Hw. destruct (is_high_surrogate x) eqn:Hx.
    + cbn [well_formed Utf8.encode] in *. rewrite Hx in *. bools.
      rewrite H. rewrite utf8_decode_code_point.
      * rewrite utf8_units_pair by assumption. cbn [app]. now rewrite IH1.
      * unfold is_high_surrogate, is_low_surrogate in *. bools. lia.
    + apply Single; auto. apply IH2. eapply well_formed_tail; eauto.
Qed.

Lemma hex_encode_length (b : Buffer) : length (Hex.encode b) = (2 * length b)%nat.
Proof.
  induction b as [|x b IH]; [reflexivity|].
  cbn [Hex.encode flat_map app length]. fold (Hex.encode b). rewrite IH. lia.
Qed.

Lemma hex_encode_even (b : Buffer) : Nat.odd (length (Hex.encode b)) = false.
Proof.
  rewrite hex_encode_length, <- Nat.negb_even, Nat.even_mul. reflexivity.
Qed.

(* ================================================================ *)
(** ** EncryptionService *)

(** Counter mode is an involution under a fixed key and nonce. *)
Lemma ctr_involutive (k n : Buffer) (data : Buffer) (pos : nat) :
  ctr k n pos (ctr k n pos data) = data.
Proof.
  revert pos. induction data as [|x data IH]; intros pos; cbn [ctr]; [reflexivity|].
  now rewrite byte_xor_involutive, IH.
Qed.

Lemma buffer_eqb_refl (b : Buffer) : buffer_eqb b b = true.
Proof. induction b; cbn; [reflexivity | now rewrite N.eqb_refl]. Qed.

Lemma tag_of_length (c : Cipher) : length (tag_of c) = 16%nat.
Proof. unfold tag_of. now rewrite length_map, length_seq. Qed.

Lemma pbkdf2_length pw s c n d : length (pbkdf2 pw s c n d) = n.
Proof. unfold pbkdf2. now rewrite length_map, length_seq. Qed.

(** What [decrypt] returns on an envelope made by [encrypt] under the
    same key: the plaintext as it went through UTF-8. *)
Lemma decrypt_encrypt_utf8 (data : jsstring) (masterKey : Buffer) (e : Entropy) :
  decrypt (fst (encrypt data masterKey e)) masterKey
  = Some (Utf8.decode (Utf8.encode data)).
Proof.
  unfold encrypt, encrypt_with_cipher, decrypt, createDecipher, createCipher.
  destruct (randomBytes IV_LENGTH e) as [iv0 e'].
  destruct (EVP_BytesToKey masterKey KEY_LENGTH GCM_IV_LENGTH) as [k n].
  cbn -[AAD Hex.encode Hex.decode Utf8.encode Utf8.decode tag_of buffer_eqb firstn
        Nat.odd length].
  rewrite app_nil_r, !hex_decode_encode.
  unfold setAuthTag, getAuthTag. rewrite tag_of_length.
  cbn -[AAD Hex.encode Hex.decode Utf8.encode Utf8.decode tag_of buffer_eqb firstn
        Nat.odd length].
  rewrite hex_encode_even.
  unfold decipher_final.
  cbn -[AAD Hex.encode Hex.decode Utf8.encode Utf8.decode tag_of buffer_eqb firstn].
  rewrite tag_of_length. unfold tag_of.
  cbn -[AAD Hex.encode Hex.decode Utf8.encode Utf8.decode buffer_eqb].
  rewrite buffer_eqb_refl.
  now rewrite app_nil_r, ctr_involutive.
Qed.

Lemma encrypt_projection (data : jsstring) (masterKey : Buffer) (e : Entropy) :
  fst (encrypt data masterKey e) = fst (fst (encrypt_with_cipher data masterKey e)).
Proof. unfold encrypt. now destruct (encrypt_with_cipher data masterKey e) as [[? ?] ?]. Qed.

(** C1 (the code departs from the claim).  The nonce the cipher works
    with does not come from the random bytes [encrypt] draws: it is the
    IV that [createCipher] derives from the key, so any two calls under
    one key run the cipher with the same key and the same nonce, whatever
    the plaintexts and the state of the random source; for equal
    plaintexts the ciphertexts and the tags of the two envelopes are
    equal, and only the stored [iv] field can differ. *)
Theorem encrypt_nonce_fixed_by_key
    (data1 data2 : jsstring) (masterKey : Buffer) (e1 e2 : Entropy) :
  let r1 := fst (encrypt_with_cipher data1 masterKey e1) in
  let r2 := fst (encrypt_with_cipher data2 masterKey e2) in
  c_iv (snd r1) = snd (EVP_BytesToKey masterKey KEY_LENGTH GCM_IV_LENGTH)
  /\ c_iv (snd r1) = c_iv (snd r2)
  /\ c_key (snd r1) = c_key (snd r2)
  /\ (data1 = data2 ->
      encrypted (fst r1) = encrypted (fst r2) /\ authTag (fst r1) = authTag (fst r2)).
Proof.
  unfold encrypt_with_cipher, createCipher.
  destruct (randomBytes IV_LENGTH e1) as [iv1 e1'].
  destruct (randomBytes IV_LENGTH e2) as [iv2 e2'].
  destruct (EVP_BytesToKey masterKey KEY_LENGTH GCM_IV_LENGTH) as [k n].
  cbn -[AAD Hex.encode Utf8.encode].
  repeat split; try reflexivity; subst; reflexivity.
Qed.

(** C2 (amended).  For every well-formed plaintext (no unpaired
    surrogate), every key and every state of the random source,
    decrypting under the key the envelope that [encrypt] made under that
    key returns the plaintext. *)
Theorem decrypt_encrypt_round_trip
    (data : jsstring) (masterKey : Buffer) (e : Entropy) :
  well_formed data = true ->
  decrypt (fst (encrypt data masterKey e)) masterKey = Some data.
Proof.
  intros Hwf. rewrite decrypt_encrypt_utf8. now rewrite utf8_decode_encode.
Qed.

(** A lone surrogate comes back as U+FFFD, under every key. *)
Lemma decrypt_encrypt_lone_surrogate (masterKey : Buffer) (e : Entropy) :
  decrypt (fst (encrypt [0xD800] masterKey e)) masterKey = Some [0xFFFD].
Proof. rewrite decrypt_encrypt_utf8. reflexivity. Qed.

Lemma jseqb_eq (a b : jsstring) : jseqb a b = true <-> a = b.
Proof.
  revert b. induction a as [|x a IH]; destruct b as [|y b]; cbn; split;
    try discriminate; try reflexivity.
  - intros H. bools. f_equal; [assumption | now apply IH].
  - intros [= -> ->]. rewrite N.eqb_refl. now apply IH.
Qed.

Lemma jseqb_refl (a : jsstring) : jseqb a a = true.
Proof. now apply jseqb_eq. Qed.

Lemma jseqb_neq (a b : jsstring) : jseqb a b = false <-> a <> b.
Proof.
  split.
  - intros H E. apply jseqb_eq in E. congruence.
  - intros H. destruct (jseqb a b) eqn:E; [|reflexivity].
    apply jseqb_eq in E. contradiction.
Qed.

(** C3 (amended).  With a non-empty salt supplied, [deriveMasterKey]
    does not read the random source: two calls with the same secret and
    salt return the same 32-byte key and the same salt, which is the
    lower-case hex form of the bytes decoded from the supplied salt; it
    is the supplied salt itself when that one is made of pairs of
    lower-case hex digits. *)
Theorem deriveMasterKey_deterministic
    (secret saltHex : jsstring) (e1 e2 : Entropy) :
  saltHex <> [] ->
  let r1 := fst (deriveMasterKey secret (Some saltHex) e1) in
  let r2 := fst (deriveMasterKey secret (Some saltHex) e2) in
  key r1 = key r2
  /\ length (key r1) = 32%nat
  /\ mk_salt r1 = mk_salt r2
  /\ mk_salt r1 = Hex.encode (Hex.decode saltHex)
  /\ (Hex.canonical saltHex = true -> mk_salt r1 = saltHex)
  /\ snd (deriveMasterKey secret (Some saltHex) e1) = e1.
Proof.
  intros Hne. destruct saltHex as [|c s]; [contradiction|].
  unfold deriveMasterKey.
  cbn -[Hex.decode Hex.encode pbkdf2 Hex.canonical].
  refine (conj eq_refl (conj _ (conj eq_refl (conj eq_refl (conj _ eq_refl))))).
  - apply pbkdf2_length.
  - apply hex_encode_decode.
Qed.

(** Without a salt, or with the empty string as salt, the salt is drawn
    from the random source. *)
Lemma deriveMasterKey_fresh_salt (secret : jsstring) (e : Entropy) :
  deriveMasterKey secret (Some []) e = deriveMasterKey secret None e
  /\ mk_salt (fst (deriveMasterKey secret None e)) = Hex.encode (fst (randomBytes 32 e)).
Proof. split; reflexivity. Qed.

(* ================================================================ *)
(** ** Registration *)

(** C10.  A registration request whose password has fewer than 12
    characters, or whose password and confirmation differ, or with a
    required field missing, is answered with status 400 and no data, and
    leaves the world as it was: no user row, no audit row, no query. *)
Theorem register_rejects_invalid
    (now : time) (req : Request RegisterRequest) (w : World) :
  (exists pw, r_password (body req) = Some pw /\ (length pw < 12)%nat)
  \/ r_password (body req) <> confirmPassword (body req)
  \/ r_email (body req) = None
  \/ r_password (body req) = None
  \/ confirmPassword (body req) = None ->
  exists r, register now req w = (Ok r, w)
            /\ status r = 400 /\ success r = false /\ data r = None.
Proof.
  intros H. unfold register, try_catch.
  destruct (r_email (body req)) as [[|c1 mail]|];
    destruct (r_password (body req)) as [[|c2 pw]|];
    destruct (confirmPassword (body req)) as [[|c3 confirm]|];
    cbn [nonempty ret];
    try (eexists; split; [reflexivity | repeat split]).
  destruct (jseqb (c2 :: pw) (c3 :: confirm)) eqn:E; cbn [negb].
  - apply jseqb_eq in E.
    destruct (length (c2 :: pw) <? 12)%nat eqn:L.
    + eexists; split; [reflexivity | repeat split].
    + apply Nat.ltb_ge in L. exfalso.
      destruct H as [(pw' & [= <-] & Hl) | [Hd | [Hn | [Hn | Hn]]]];
        try discriminate; [lia | congruence].
  - eexists; split; [reflexivity | repeat split].
Qed.

(* ================================================================ *)
(** ** What a computation leaves untouched *)

Section Preservation.

Context {T : Type} (f : Db -> T).

Lemma preserves_ret {A} (a : A) : preserves f (ret a).
Proof. intros w. reflexivity. Qed.

Lemma preserves_throw {A} (e : exn) : preserves f (@throw A e).
Proof. intros w. reflexivity. Qed.

Lemma preserves_bind {A B} (m : M A) (k : A -> M B) :
  preserves f m -> (forall a, preserves f (k a)) -> preserves f (bind m k).
Proof.
  intros Hm Hk w. unfold bind. specialize (Hm w).
  destruct (m w) as [[a|e] w']; cbn [snd] in *; [|assumption].
  now rewrite Hk.
Qed.

Lemma preserves_try_catch {A} (m : M A) (h : exn -> M A) :
  preserves f m -> (forall e, preserves f (h e)) -> preserves f (try_catch m h).
Proof.
  intros Hm Hh w. unfold try_catch. specialize (Hm w).
  destruct (m w) as [[a|e] w']; cbn [snd] in *; [assumption|].
  now rewrite Hh.
Qed.

Lemma preserves_query {A} (st : Db -> outcome A * Db) :
  statement_preserves f st -> preserves f (query st).
Proof.
  intros Hst w. unfold query. specialize (Hst (db w)).
  destruct (faults w) as [|[|] fs]; destruct (st (db w)); cbn in *; congruence.
Qed.

Lemma preserves_with_entropy {A} (g : Entropy -> A * Entropy) :
  preserves f (with_entropy g).
Proof. intros w. unfold with_entropy. now destruct (g (entropy w)). Qed.

Lemma preserves_uuidv4 : preserves f uuidv4.
Proof. intros w. reflexivity. Qed.

End Preservation.

(** Splits a computation along its binds and branches. *)
Ltac preserve :=
  repeat first
    [ apply preserves_ret
    | apply preserves_throw
    | apply preserves_uuidv4
    | apply preserves_with_entropy
    | apply preserves_try_catch; [|intros ?]
    | apply preserves_bind; [|intros ?]
    | apply preserves_query; intros ?;
      repeat match goal with
        | |- context [if ?b then _ else _] => destruct b
        end; reflexivity
    | match goal with
      | |- preserves _ (match ?x with _ => _ end) => destruct x
      | |- preserves _ (let _ := _ in _) => cbv zeta
      end ].

Lemma update_preserves_password_history
    (now : time) (req : Request UpdateCredentialRequest) :
  preserves password_history (update now req).
Proof. unfold update. preserve. Qed.

(** C7 (the code departs from the claim).  No update of a credential,
    whatever it overwrites, adds a row to the password history: after any
    number of updates the history is what it was before the first one. *)
Theorem updates_keep_password_history
    (now : time) (reqs : list (Request UpdateCredentialRequest)) (w : World) :
  password_history (db (snd (updates now reqs w))) = password_history (db w).
Proof.
  revert now w. induction reqs as [|r reqs IH]; intros now w; cbn [updates]; [reflexivity|].
  pose proof (update_preserves_password_history now r w) as H.
  destruct (update now r w) as [[resp|e] w']; cbn [snd] in *; [|assumption].
  specialize (IH (now + 1) w').
  destruct (updates (now + 1) reqs w') as [rs w'']. cbn [snd] in *. congruence.
Qed.

(* ================================================================ *)
(** ** Login *)

Lemma nonempty_some (s : jsstring) : s <> [] -> nonempty (Some s) = Some s.
Proof. destruct s; [contradiction | reflexivity]. Qed.

(** Runs the next steps of a handler: binds, queries of a known fault
    schedule, and the statements that are not guarded by a test. *)
Ltac run :=
  unfold try_catch, bind, query, ret, throw, verifyPassword, uuidv4;
  cbn [faults db entropy next_uuid fst snd negb
       Sql.select_users_by_email Sql.insert_audit Sql.select_valid_sessions
       Sql.select_users_by_id Sql.insert_session Sql.update_last_login
       Sql.insert_credential Sql.select_credential Sql.select_folder
       Sql.set_sessions Sql.set_users Sql.set_credentials Sql.set_security_audit
       users sessions security_audit credentials folders password_history
       s_token].

(** The handlers read a user row at the names of the TypeScript
    interface; the row has the names of the columns, and four of them
    differ. *)
Lemma property_camel_case (user : User) :
  property user "passwordHash" = Undefined
  /\ property user "twoFactorEnabled" = Undefined
  /\ property user "twoFactorSecret" = Undefined
  /\ property user "masterKeySalt" = Undefined.
Proof. repeat split. Qed.

(** A login whose SELECT finds a row ends in the catch clause, whatever
    the password and the one-time code, and whatever query fails:
    [bcrypt.compare] is handed [undefined]. *)
Lemma login_known_address
    (now : time) (req : Request LoginRequest) (w : World)
    (mail pw : jsstring) (user : User) (others : list User) :
  l_email (body req) = Some mail -> mail <> [] ->
  l_password (body req) = Some pw -> pw <> [] ->
  fst (Sql.select_users_by_email (toLowerCase mail) (db w)) = Ok (user :: others) ->
  fst (login now req w) = Ok (failure 500 "Login failed")
  /\ db (snd (login now req w)) = db w.
Proof.
  intros Hm Hmne Hp Hpne Hu.
  destruct w as [d fs en nu]. cbn [faults db] in *.
  unfold login. rewrite Hm, Hp, !nonempty_some by assumption.
  unfold Sql.select_users_by_email in *.
  destruct (Sql.text (toLowerCase mail)) as [e|]; [|discriminate].
  cbn [fst] in Hu. injection Hu as Hu.
  destruct fs as [|[|] fs]; run; try (split; reflexivity);
    rewrite Hu; rewrite (proj1 (property_camel_case user)); split; reflexivity.
Qed.

(** A login whose SELECT finds no row is answered 401, without an audit
    row. *)
Lemma login_unknown_email
    (now : time) (req : Request LoginRequest) (w : World) (mail pw : jsstring) :
  faults w = [] ->
  l_email (body req) = Some mail -> mail <> [] ->
  l_password (body req) = Some pw -> pw <> [] ->
  fst (Sql.select_users_by_email (toLowerCase mail) (db w)) = Ok [] ->
  login now req w = (Ok (failure 401 "Invalid credentials"), w).
Proof.
  intros Hf Hm Hmne Hp Hpne Hu.
  destruct w as [d fs en nu]. cbn [faults db] in *. subst fs.
  unfold login. rewrite Hm, Hp, !nonempty_some by assumption.
  unfold Sql.select_users_by_email in *.
  destruct (Sql.text (toLowerCase mail)) as [e|]; [|discriminate].
  cbn [fst] in Hu. injection Hu as Hu.
  run. rewrite Hu. reflexivity.
Qed.

(** Every login is answered, never with success, and writes nothing. *)
Lemma login_outcomes (now : time) (req : Request LoginRequest) (w : World) :
  exists r, fst (login now req w) = Ok r /\ success r = false
            /\ db (snd (login now req w)) = db w.
Proof.
  destruct (l_email (body req)) as [[|c1 mail]|] eqn:Hm;
    destruct (l_password (body req)) as [[|c2 pw]|] eqn:Hp;
    try (unfold login, try_catch; rewrite Hm, Hp; cbn [nonempty ret fst snd];
         eexists; repeat split; reflexivity).
  destruct (fst (Sql.select_users_by_email (toLowerCase (c1 :: mail)) (db w)))
    as [[|user others]|e] eqn:Hu.
  - destruct w as [d fs en nu]. cbn [faults db] in *.
    unfold login. rewrite Hm, Hp. cbn [nonempty].
    unfold Sql.select_users_by_email in *.
    destruct (Sql.text (toLowerCase (c1 :: mail))) as [e|]; [|discriminate].
    cbn [fst] in Hu. injection Hu as Hu.
    destruct fs as [|[|] fs]; run; try rewrite Hu;
      eexists; repeat split; reflexivity.
  - destruct (@login_known_address now req w (c1 :: mail) (c2 :: pw) user others)
      as [H1 H2]; try assumption; try discriminate.
    eexists. split; [exact H1|]. split; [reflexivity | exact H2].
  - destruct w as [d fs en nu]. cbn [faults db] in *.
    unfold login. rewrite Hm, Hp. cbn [nonempty].
    unfold Sql.select_users_by_email in *.
    destruct (Sql.text (toLowerCase (c1 :: mail))) as [e'|]; [discriminate|].
    destruct fs as [|[|] fs]; run; eexists; repeat split; reflexivity.
Qed.

(** C4 (the code departs from the claim).  A login whose address is on
    file (the SELECT by e-mail finds a row) is answered 500 "Login
    failed" whatever the password and the one-time code and whichever
    check they would have failed, and it leaves the store as it was: no
    audit row records a reason.  The answer does tell such an address
    from one that is not on file, which is answered 401 "Invalid
    credentials". *)
Theorem login_failure_without_reason
    (now : time) (req : Request LoginRequest) (w : World) (mail pw : jsstring) :
  l_email (body req) = Some mail -> mail <> [] ->
  l_password (body req) = Some pw -> pw <> [] ->
  (forall user others,
      fst (Sql.select_users_by_email (toLowerCase mail) (db w))
      = Ok (user :: others) ->
      fst (login now req w) = Ok (failure 500 "Login failed")
      /\ security_audit (db (snd (login now req w))) = security_audit (db w)
      /\ sessions (db (snd (login now req w))) = sessions (db w))
  /\ (fst (Sql.select_users_by_email (toLowerCase mail) (db w)) = Ok [] ->
      faults w = [] ->
      login now req w = (Ok (failure 401 "Invalid credentials"), w)).
Proof.
  intros Hm Hmne Hp Hpne. split.
  - intros user others Hu.
    destruct (@login_known_address now req w mail pw user others) as [H1 H2];
      try assumption.
    rewrite H1, H2. repeat split.
  - intros Hu Hf. now apply login_unknown_email with (mail := mail) (pw := pw).
Qed.

(** C9 (the code departs from the claim).  The second-factor block of
    [login] asks no row for a code: the flag it tests is read at a name
    the row does not have.  And the block is never reached: no login is
    answered with success, and none adds a session row, whatever the
    account, the password and the code. *)
Theorem login_never_checks_second_factor (now : time) (req : Request LoginRequest) :
  (forall (user : User) (w : World),
      login_second_factor now req user w = (Ok None, w))
  /\ (forall w : World,
         (exists r, fst (login now req w) = Ok r /\ success r = false)
         /\ sessions (db (snd (login now req w))) = sessions (db w)).
Proof.
  split.
  - intros user w. unfold login_second_factor.
    now rewrite (proj1 (proj2 (property_camel_case user))).
  - intros w. destruct (login_outcomes now req w) as (r & H1 & H2 & H3).
    split; [now exists r | now rewrite H3].
Qed.

(* ================================================================ *)
(** ** Audit rows and the operation that writes them *)

(** The row an INSERT stores has the identifier and the owner it was
    given. *)
Lemma stored_credential_keys (c row : Credential) (d : Db) :
  Sql.stored_credential c d = Some row ->
  c_id row = c_id c /\ c_userId row = c_userId c.
Proof.
  unfold Sql.stored_credential.
  destruct (Sql.varchar 255 (title c)); [|discriminate].
  destruct (Sql.varchar 255 (username c)); [|discriminate].
  destruct (Sql.text (password c)); [|discriminate].
  destruct (Sql.optional_text (url c)); [|discriminate].
  destruct (Sql.optional_text (notes c)); [|discriminate].
  destruct (Sql.texts (tags c)); [|discriminate].
  destruct (_ && _)%bool; [|discriminate].
  intros [= <-]. split; reflexivity.
Qed.

(** C8 (amended).  The audit row is written inside the operation: when
    the INSERT of [create] has been accepted and the write of the audit
    row that follows it fails, [create] answers 500 "Failed to create
    credential" although the credential row stays in the store, and no
    audit row is written. *)
Theorem audit_failure_fails_operation
    (now : time) (req : Request CreateCredentialRequest) (w : World)
    (user : User) (t un pw : jsstring) (row : Credential) (fs : list bool) :
  req_user req = Some user ->
  nonempty (cr_title (body req)) = Some t ->
  nonempty (cr_username (body req)) = Some un ->
  nonempty (cr_password (body req)) = Some pw ->
  match cr_folderId (body req) with
  | Some fid =>
      filter (fun f => (f_id f =? fid) && (f_userId f =? u_id user)) (folders (db w)) <> []
  | None => True
  end ->
  Sql.stored_credential (requested_credential now req user t un pw (next_uuid w)) (db w)
  = Some row ->
  faults w = match cr_folderId (body req) with
             | Some _ => false :: false :: true :: fs
             | None => false :: true :: fs
             end ->
  exists w',
    create now req w = (Ok (failure 500 "Failed to create credential"), w')
    /\ credentials (db w') = credentials (db w) ++ [row]
    /\ c_id row = next_uuid w /\ c_userId row = u_id user
    /\ security_audit (db w') = security_audit (db w).
Proof.
  intros Hu Ht Hun Hp Hfolder Hrow Hf.
  destruct (stored_credential_keys _ _ Hrow) as [Hid Howner].
  cbn [requested_credential c_id c_userId] in Hid, Howner.
  destruct w as [d fs0 en nu]. cbn [faults db next_uuid] in *.
  unfold create. rewrite Hu, Ht, Hun, Hp.
  unfold requested_credential in Hrow.
  destruct (cr_folderId (body req)) as [fid|]; subst fs0; run.
  - destruct (filter _ (folders d)) as [|f l]; [contradiction|].
    run. cbn [length Nat.eqb negb]. run.
    unfold Sql.insert_credential. rewrite Hrow. run.
    eexists. repeat split; try reflexivity; assumption.
  - unfold Sql.insert_credential. rewrite Hrow. run.
    eexists. repeat split; try reflexivity; assumption.
Qed.

(* ================================================================ *)
(** ** Validation of a token *)

Lemma bearer_header (token : jsstring) :
  nonempty (bearer token) = Some (js "Bearer " ++ token)
  /\ startsWith (js "Bearer " ++ token) (js "Bearer ") = true
  /\ substring 7 (js "Bearer " ++ token) = token.
Proof. split; [reflexivity | split; reflexivity]. Qed.

(** What the middleware answers when no query fails. *)
Lemma authenticate_no_faults {B} (now : time) (req : Request B) (w : World)
    (secret token : jsstring) :
  faults w = [] -> JWT_SECRET env = Some secret -> secret <> [] ->
  authorization req = bearer token ->
  authenticate now req w
  = (Ok match jwt_decode secret token with
        | None => Sent (failure 401 "Invalid token")
        | Some p =>
            if exp p <=? now / 1000 then Sent (failure 401 "Invalid token")
            else
              match filter (fun s => jseqb (s_token s) token && (now <? expiresAt s))
                           (sessions (db w)) with
              | [] => Sent (failure 401 "Invalid or expired session")
              | _ :: _ =>
                  match filter (fun u => u_id u =? userId p) (users (db w)) with
                  | [] => Sent (failure 401 "User not found")
                  | u :: _ => Next u
                  end
              end
        end, w).
Proof.
  intros Hf Hs Hsne Ha.
  destruct w as [d fs en nu]. cbn [faults db] in *. subst fs.
  destruct (bearer_header token) as (E1 & E2 & E3).
  unfold authenticate. rewrite Ha, E1, E2, E3, Hs, nonempty_some by assumption.
  cbn [negb]. unfold jwt_verify.
  destruct (jwt_decode secret token) as [p|]; [|reflexivity].
  destruct (exp p <=? now / 1000); [reflexivity|].
  run.
  destruct (filter _ (sessions d)); [reflexivity|]. run.
  destruct (filter _ (users d)); reflexivity.
Qed.

Lemma filter_nonempty_iff {A} (f : A -> bool) (l : list A) :
  filter f l <> [] <-> exists x, In x l /\ f x = true.
Proof.
  split.
  - destruct (filter f l) as [|x r] eqn:E; [contradiction|]. intros _.
    exists x. apply filter_In. rewrite E. now left.
  - intros (x & Hx) E. apply filter_In in Hx. rewrite E in Hx. contradiction.
Qed.

(** C6 (amended).  When no query fails and the signing secret is
    configured, the middleware lets a request through as user [u] exactly
    when its token passes the token check (signature, and expiry of the
    token itself), some session row holds the token with an expiry later
    than the time of validation, and [u] is the user row the token names;
    a token that passes the token check but whose session rows are absent
    or expired at that time is answered 401 "Invalid or expired session".
    In both cases the store is only read. *)
Theorem authenticate_accepts_iff {B}
    (now : time) (req : Request B) (w : World) (secret token : jsstring) :
  faults w = [] -> JWT_SECRET env = Some secret -> secret <> [] ->
  authorization req = bearer token ->
  (forall u,
      authenticate now req w = (Ok (Next u), w)
      <-> exists p s others,
            jwt_decode secret token = Some p /\ now / 1000 < exp p
            /\ In s (sessions (db w)) /\ s_token s = token /\ now < expiresAt s
            /\ filter (fun u' => u_id u' =? userId p) (users (db w)) = u :: others)
  /\ (forall p,
      jwt_decode secret token = Some p -> now / 1000 < exp p ->
      (forall s, In s (sessions (db w)) -> s_token s = token -> expiresAt s <= now) ->
      authenticate now req w = (Ok (Sent (failure 401 "Invalid or expired session")), w)).
Proof.
  intros Hf Hs Hsne Ha.
  rewrite (authenticate_no_faults now req w Hf Hs Hsne Ha).
  split.
  - intros u. split.
    + intros H.
      destruct (jwt_decode secret token) as [p|]; [|discriminate].
      destruct (exp p <=? now / 1000) eqn:Ex; [discriminate|].
      destruct (filter _ (sessions (db w))) as [|s ss] eqn:Es; [discriminate|].
      destruct (filter _ (users (db w))) as [|u' us] eqn:Eu; [discriminate|].
      injection H as ->.
      assert (In s (filter (fun s => jseqb (s_token s) token && (now <? expiresAt s))
                           (sessions (db w)))) as Hin by (rewrite Es; now left).
      apply filter_In in Hin. destruct Hin as [Hin Hc]. bools.
      exists p, s, us. repeat split; try assumption; try lia.
      now apply jseqb_eq.
    + intros (p & s & others & Hp & Hx & Hin & Ht & He & Hu).
      rewrite Hp. replace (exp p <=? now / 1000) with false
        by (symmetry; apply N.leb_gt; lia).
      destruct (filter _ (sessions (db w))) as [|s' ss] eqn:Es.
      * exfalso. revert Es. apply filter_nonempty_iff. exists s. split; [assumption|].
        apply andb_true_intro. split; [now apply jseqb_eq | now apply N.ltb_lt].
      * now rewrite Hu.
  - intros p Hp Hx Hnone. rewrite Hp.
    replace (exp p <=? now / 1000) with false by (symmetry; apply N.leb_gt; lia).
    destruct (filter _ (sessions (db w))) as [|s ss] eqn:Es; [reflexivity|].
    exfalso.
    assert (In s (filter (fun s => jseqb (s_token s) token && (now <? expiresAt s))
                         (sessions (db w)))) as Hin by (rewrite Es; now left).
    apply filter_In in Hin. destruct Hin as [Hin Hc]. bools.
    apply jseqb_eq in H. specialize (Hnone s Hin H). lia.
Qed.

(* ================================================================ *)
(** ** Refreshing a token *)

(** Once the rows holding [old] have been given another token, no row
    holds [old]. *)
Lemma retoken_removes_old (new old : jsstring) (e : time) (c : Session -> bool)
    (l : list Session) :
  new <> old ->
  filter (fun s => jseqb (s_token s) old && c s) (List.map (Sql.retoken new e old) l) = [].
Proof.
  intros Hne. induction l as [|s l IH]; [reflexivity|].
  cbn [List.map filter]. unfold Sql.retoken at 1.
  destruct (jseqb (s_token s) old) eqn:E; cbn [s_token].
  - apply jseqb_neq in Hne. now rewrite Hne.
  - now rewrite E.
Qed.

(** A row that held [old] holds [new] afterwards, with the new expiry. *)
Lemma retoken_installs_new (new old : jsstring) (e now : time)
    (l : list Session) (s : Session) :
  In s l -> s_token s = old -> now < e ->
  filter (fun s' => jseqb (s_token s') new && (now <? expiresAt s'))
         (List.map (Sql.retoken new e old) l) <> [].
Proof.
  intros Hin Ht He. apply filter_nonempty_iff.
  exists (Sql.retoken new e old s). split; [now apply in_map|].
  unfold Sql.retoken. rewrite Ht, jseqb_refl. cbn [s_token expiresAt].
  rewrite jseqb_refl. now apply N.ltb_lt.
Qed.

Lemma jseqb_spec (a b : jsstring) : reflect (a = b) (jseqb a b).
Proof. apply iff_reflect. symmetry. apply jseqb_eq. Qed.

Lemma filter_head {A} (f : A -> bool) (l : list A) (x : A) (r : list A) :
  filter f l = x :: r -> f x = true /\ In x l.
Proof.
  intros E. assert (In x (filter f l)) as H by (rewrite E; now left).
  apply filter_In in H. tauto.
Qed.

(** A token is held by one row at most when the tokens are apart. *)
Lemma filter_token_le1 (k : jsstring) (l : list Session) :
  NoDup (List.map s_token l) ->
  (length (filter (fun s => jseqb (s_token s) k) l) <= 1)%nat.
Proof.
  induction l as [|s l IH]; cbn [List.map filter length]; intros H; [lia|].
  inversion H as [|? ? Hs Hl]; subst.
  destruct (jseqb_spec (s_token s) k) as [E|E]; [|now apply IH].
  cbn [length].
  assert (filter (fun s => jseqb (s_token s) k) l = []) as ->; [|cbn; lia].
  destruct (filter (fun s => jseqb (s_token s) k) l) as [|x r] eqn:Ef; [reflexivity|].
  exfalso. apply filter_head in Ef. destruct Ef as [Ex Hin]. apply jseqb_eq in Ex.
  apply Hs. rewrite E, <- Ex. now apply in_map.
Qed.

Lemma retoken_others_none (new old : jsstring) (l : list Session) :
  (forall s, In s l -> s_token s = new -> s_token s = old) ->
  filter (fun s => negb (jseqb (s_token s) old) && jseqb (s_token s) new) l = [].
Proof.
  intros H. induction l as [|s l IH]; [reflexivity|]. cbn [filter].
  rewrite IH by (intros s0 Hin; apply H; now right).
  destruct (jseqb_spec (s_token s) new) as [E|E]; [|now rewrite andb_false_r].
  now rewrite (proj2 (jseqb_eq _ _) (H s (or_introl eq_refl) E)).
Qed.

(** The UPDATE of a refresh is accepted when the new token fits the
    column and no row that keeps its token holds it already. *)
Lemma update_session_token_accepted (new old : jsstring) (e : time) (d : Db) :
  Sql.varchar 255 new = Some new -> unique_tokens d ->
  (forall s, In s (sessions d) -> s_token s = new -> s_token s = old) ->
  Sql.update_session_token new e old d
  = (Ok tt, Sql.set_sessions (List.map (Sql.retoken new e old) (sessions d)) d).
Proof.
  intros Hv Hu Ho. unfold Sql.update_session_token. rewrite Hv. cbv zeta.
  rewrite retoken_others_none by assumption.
  pose proof (@filter_token_le1 old (sessions d) Hu) as Hle. cbn [length]. rewrite Nat.add_0_r.
  destruct (length (filter (fun s => jseqb (s_token s) old) (sessions d)))
    as [|[|n]]; cbn; try reflexivity. lia.
Qed.

(** After the UPDATE every row that holds [new] expires at [e]. *)
Lemma retoken_expiry (new old : jsstring) (e now : time) (l : list Session) :
  (forall s, In s l -> s_token s = new -> s_token s = old) -> e <= now ->
  filter (fun s' => jseqb (s_token s') new && (now <? expiresAt s'))
         (List.map (Sql.retoken new e old) l) = [].
Proof.
  intros H He. induction l as [|s l IH]; [reflexivity|]. cbn [List.map filter].
  rewrite IH by (intros s0 Hin; apply H; now right).
  unfold Sql.retoken.
  destruct (jseqb_spec (s_token s) old) as [E|E]; cbn [s_token expiresAt].
  - rewrite jseqb_refl. now replace (now <? e) with false by (symmetry; apply N.ltb_ge; lia).
  - destruct (jseqb_spec (s_token s) new) as [E'|E']; [|reflexivity].
    exfalso. apply E. apply H; [now left | assumption].
Qed.

Lemma retoken_no_old (new old : jsstring) (e : time) (l : list Session) :
  (forall s, In s l -> s_token s <> old) ->
  List.map (Sql.retoken new e old) l = l.
Proof.
  intros H. induction l as [|s l IH]; [reflexivity|]. cbn [List.map].
  rewrite IH by (intros s0 Hin; apply H; now right).
  unfold Sql.retoken.
  destruct (jseqb_spec (s_token s) old) as [E|E]; [|reflexivity].
  exfalso. now apply (H s (or_introl eq_refl)).
Qed.

Lemma no_row_holds (k : jsstring) (c : Session -> bool) (l : list Session) :
  (forall s, In s l -> s_token s <> k) ->
  filter (fun s => jseqb (s_token s) k && c s) l = [].
Proof.
  intros H. induction l as [|s l IH]; [reflexivity|]. cbn [filter].
  rewrite IH by (intros s0 Hin; apply H; now right).
  destruct (jseqb_spec (s_token s) k) as [E|E]; [|reflexivity].
  exfalso. now apply (H s (or_introl eq_refl)).
Qed.

(** C5 (amended).  [refreshToken], called for a user with the bearer
    token [old], signs a token [new] for 24 hours and issues one UPDATE,
    which gives every session row that holds [old] the token [new] and an
    expiry one calendar day later, and changes no other row; it answers
    200 with [new] whether or not a row held [old].  If a row did, [new]
    is accepted from then on exactly while neither the token (24 hours,
    in whole seconds) nor the row (one calendar day of the server) has
    expired, and [old], when [new] differs from it, is refused at any
    time.  If no row did, nothing changes and [new] is refused at any
    time. *)
Theorem refresh_replaces_token {B}
    (now : time) (req : Request B) (w : World) (user : User)
    (secret old : jsstring) :
  (forall s p, jwt_decode s (jwt_encode s p) = Some p) ->
  faults w = [] -> JWT_SECRET env = Some secret -> secret <> [] ->
  req_user req = Some user ->
  authorization req = bearer old ->
  let new := jwt_sign (u_id user) (u_email user) secret 86400 now in
  let expiry := addDays env 1 now in
  Sql.varchar 255 new = Some new ->
  unique_tokens (db w) ->
  (forall s, In s (sessions (db w)) -> s_token s = new -> s_token s = old) ->
  exists w',
    refreshToken now req w = (Ok (reply 200 None (Some (TokenData new))), w')
    /\ sessions (db w') = List.map (Sql.retoken new expiry old) (sessions (db w))
    /\ ((exists s, In s (sessions (db w)) /\ s_token s = old) ->
        (forall now' B' (req' : Request B') u others,
            authorization req' = bearer new ->
            filter (fun u' => u_id u' =? u_id user) (users (db w)) = u :: others ->
            (now' / 1000 < now / 1000 + 86400 -> now' < expiry ->
             authenticate now' req' w' = (Ok (Next u), w'))
            /\ (now / 1000 + 86400 <= now' / 1000 \/ expiry <= now' ->
                exists r', authenticate now' req' w' = (Ok (Sent r'), w')
                           /\ status r' = 401))
        /\ (new <> old ->
            forall now' B' (req' : Request B'),
              authorization req' = bearer old ->
              exists r', authenticate now' req' w' = (Ok (Sent r'), w')
                         /\ status r' = 401))
    /\ ((forall s, In s (sessions (db w)) -> s_token s <> old) ->
        sessions (db w') = sessions (db w)
        /\ forall now' B' (req' : Request B'),
             authorization req' = bearer new ->
             exists r', authenticate now' req' w' = (Ok (Sent r'), w')
                        /\ status r' = 401).
Proof.
  intros Hjwt Hf Hs Hsne Hu Ha new expiry Hv Huniq Hother.
  destruct w as [d fs en nu]. cbn [faults db] in *. subst fs.
  destruct (bearer_header old) as (E1 & E2 & E3).
  unfold refreshToken. rewrite Hu, Hs, nonempty_some, Ha, E1, E2, E3 by assumption.
  run. fold new. fold expiry.
  rewrite (@update_session_token_accepted new old expiry d Hv Huniq Hother).
  eexists. split; [reflexivity|].
  cbn [db sessions users Sql.set_sessions].
  split; [reflexivity|]. split.
  - intros (s & Hin & Hold). split.
    + intros now' B' req' u others Ha' Eu.
      erewrite !authenticate_no_faults; [|reflexivity|exact Hs|exact Hsne|exact Ha'].
      assert (jwt_decode secret new
              = Some {| userId := u_id user; email := u_email user;
                        iat := now / 1000; exp := now / 1000 + 86400 |}) as Hd
        by apply Hjwt.
      rewrite Hd. cbn [exp userId db sessions users Sql.set_sessions]. split.
      * intros H1 H2.
        replace (now / 1000 + 86400 <=? now' / 1000) with false
          by (symmetry; apply N.leb_gt; lia).
        destruct (filter _ (List.map _ (sessions d))) as [|s' ss'] eqn:Es'.
        -- exfalso. revert Es'.
           apply retoken_installs_new with (s := s); assumption.
        -- now rewrite Eu.
      * intros [H|H].
        -- replace (now / 1000 + 86400 <=? now' / 1000) with true
             by (symmetry; apply N.leb_le; lia).
           eexists. split; reflexivity.
        -- rewrite retoken_expiry by assumption.
           destruct (now / 1000 + 86400 <=? now' / 1000); eexists; split; reflexivity.
    + intros Hne now' B' req' Ha'.
      erewrite authenticate_no_faults; [|reflexivity|exact Hs|exact Hsne|exact Ha'].
      cbn [db sessions Sql.set_sessions].
      rewrite retoken_removes_old by assumption.
      destruct (jwt_decode secret old) as [p|]; [|eexists; split; reflexivity].
      destruct (exp p <=? now' / 1000); eexists; split; reflexivity.
  - intros Hnone. split; [now apply retoken_no_old|].
    intros now' B' req' Ha'.
    erewrite authenticate_no_faults; [|reflexivity|exact Hs|exact Hsne|exact Ha'].
    cbn [db sessions Sql.set_sessions].
    rewrite retoken_no_old by assumption.
    rewrite no_row_holds.
    + destruct (jwt_decode secret new) as [p|]; [|eexists; split; reflexivity].
      destruct (exp p <=? now' / 1000); eexists; split; reflexivity.
    + intros s Hin E. apply (Hnone s Hin). now apply Hother.
Qed.

(* ================================================================ *)
(** ** More on the EncryptionService *)

Lemma buffer_eqb_eq (a b : Buffer) : buffer_eqb a b = true <-> a = b.
Proof.
  revert b. induction a as [|x a IH]; destruct b as [|y b]; cbn; split;
    try discriminate; try reflexivity.
  - intros H. bools. f_equal; [|now apply IH].
    rewrite <- (byte_of_N_to_N x), <- (byte_of_N_to_N y). now f_equal.
  - intros [= -> ->]. rewrite N.eqb_refl. now apply IH.
Qed.

Lemma randomBytes_length (n : nat) (e : Entropy) : length (fst (randomBytes n e)) = n.
Proof. unfold randomBytes. cbn [fst]. now rewrite length_map, length_seq. Qed.

(** X1.  A salt made by [generateSalt] has 64 lower-case hex digits, and
    [deriveMasterKey] called with it hands the same salt back, without
    reading the random source. *)
Theorem generated_salt_is_kept (secret : jsstring) (e e2 : Entropy) :
  let s := fst (generateSalt e) in
  length s = 64%nat
  /\ Hex.canonical s = true
  /\ mk_salt (fst (deriveMasterKey secret (Some s) e2)) = s
  /\ snd (deriveMasterKey secret (Some s) e2) = e2.
Proof.
  cbv zeta. unfold generateSalt.
  pose proof (randomBytes_length 32 e) as Hl.
  destruct (randomBytes 32 e) as [b e']. cbn [fst] in *.
  split; [rewrite hex_encode_length; lia|].
  split; [apply hex_canonical_encode|].
  destruct b as [|x b]; [discriminate|].
  unfold deriveMasterKey.
  change (Hex.encode (x :: b))
    with (Hex.digit (Byte.to_N x / 16) :: Hex.digit (Byte.to_N x mod 16) :: Hex.encode b).
  cbn [fst snd mk_salt].
  change (Hex.digit (Byte.to_N x / 16) :: Hex.digit (Byte.to_N x mod 16) :: Hex.encode b)
    with (Hex.encode (x :: b)).
  now rewrite hex_decode_encode.
Qed.

(** The pieces of an envelope made by [encrypt]. *)
Lemma encrypt_fields (data : jsstring) (masterKey : Buffer) (e : Entropy) :
  let env := fst (encrypt data masterKey e) in
  let c := createCipher masterKey in
  let ct := ctr (c_key c) (c_iv c) 0 (Utf8.encode data) in
  encrypted env = Hex.encode ct
  /\ iv env = Hex.encode (fst (randomBytes IV_LENGTH e))
  /\ authTag env = Hex.encode (List.map (gcm_tag (c_key c) (c_iv c) AAD ct) (seq 0 16))
  /\ salt env = []
  /\ snd (encrypt data masterKey e) = snd (randomBytes IV_LENGTH e).
Proof.
  cbv zeta. unfold encrypt, encrypt_with_cipher, createCipher.
  destruct (randomBytes IV_LENGTH e) as [iv0 e'].
  destruct (EVP_BytesToKey masterKey KEY_LENGTH GCM_IV_LENGTH) as [k n].
  cbn -[AAD Hex.encode Utf8.encode seq].
  rewrite app_nil_r. repeat split.
Qed.

Lemma ctr_length (k n : Buffer) (data : Buffer) (pos : nat) :
  length (ctr k n pos data) = length data.
Proof. revert pos. induction data; intros; cbn; [reflexivity | now rewrite IHdata]. Qed.

(** X2.  The envelope of [encrypt] holds the 16 bytes read from the
    random source as 32 hex digits in [iv], a tag of 32 hex digits, an
    empty [salt], and two hex digits per UTF-8 byte of the plaintext: the
    length of the plaintext shows. *)
Theorem encrypt_envelope_shape (data : jsstring) (masterKey : Buffer) (e : Entropy) :
  let env := fst (encrypt data masterKey e) in
  iv env = Hex.encode (fst (randomBytes 16 e))
  /\ length (iv env) = 32%nat
  /\ length (authTag env) = 32%nat
  /\ length (encrypted env) = (2 * length (Utf8.encode data))%nat
  /\ salt env = []
  /\ Hex.canonical (encrypted env) = true
  /\ Hex.canonical (authTag env) = true.
Proof.
  cbv zeta.
  destruct (encrypt_fields data masterKey e) as (He & Hi & Ht & Hs & _).
  rewrite He, Hi, Ht, Hs, !hex_encode_length, randomBytes_length, ctr_length,
    length_map, length_seq.
  repeat split; apply hex_canonical_encode.
Qed.

(** X3.  [decrypt] never reads the [iv] and [salt] fields: the envelope
    of a well-formed plaintext still decrypts to that plaintext after
    these two fields have been replaced by anything. *)
Theorem decrypt_ignores_iv_and_salt
    (data : jsstring) (masterKey : Buffer) (e : Entropy) (iv' salt' : jsstring) :
  well_formed data = true ->
  let env := fst (encrypt data masterKey e) in
  decrypt {| encrypted := encrypted env; iv := iv'; authTag := authTag env;
             salt := salt' |} masterKey
  = Some data.
Proof.
  intros Hwf. cbv zeta.
  transitivity (decrypt (fst (encrypt data masterKey e)) masterKey).
  - reflexivity.
  - rewrite decrypt_encrypt_utf8. now rewrite utf8_decode_encode.
Qed.

(** X4.  [decrypt] throws on the envelope of [encrypt] once its tag has
    been replaced by any other 16-byte tag. *)
Theorem decrypt_rejects_other_tag
    (data : jsstring) (masterKey : Buffer) (e : Entropy) (t : Buffer) :
  length t = 16%nat ->
  let env := fst (encrypt data masterKey e) in
  Hex.encode t <> authTag env ->
  decrypt {| encrypted := encrypted env; iv := iv env; authTag := Hex.encode t;
             salt := salt env |} masterKey
  = None.
Proof.
  intros Hl. cbv zeta.
  destruct (encrypt_fields data masterKey e) as (He & _ & Ht & _ & _).
  rewrite He, Ht. intros Hne.
  unfold decrypt, createDecipher, createCipher in *.
  destruct (EVP_BytesToKey masterKey KEY_LENGTH GCM_IV_LENGTH) as [k n].
  cbn -[AAD Hex.encode Hex.decode Utf8.encode Utf8.decode tag_of buffer_eqb firstn seq] in *.
  rewrite !hex_decode_encode. unfold setAuthTag. rewrite Hl.
  cbn -[AAD Hex.encode Hex.decode Utf8.encode Utf8.decode tag_of buffer_eqb firstn seq].
  unfold decipher_final.
  cbn -[AAD Hex.encode Hex.decode Utf8.encode Utf8.decode tag_of buffer_eqb firstn seq].
  rewrite Hl.
  rewrite <- (tag_of_length
    {| c_key := k; c_iv := n; c_aad := AAD;
       c_text := ctr k n 0 (Utf8.encode data); c_tag := Some t |}) at 1.
  rewrite firstn_all, hex_encode_even.
  destruct (buffer_eqb _ t) eqn:E; [|reflexivity].
  apply buffer_eqb_eq in E. exfalso. apply Hne. now rewrite <- E.
Qed.

(** Induction over a list three elements at a time. *)
Lemma triple_induction {A} (P : list A -> Prop) :
  P [] -> (forall x, P [x]) -> (forall x y, P [x; y]) ->
  (forall x y z l, P l -> P (x :: y :: z :: l)) ->
  forall l, P l.
Proof.
  intros H0 H1 H2 H3.
  assert (forall l, P l /\ (forall x, P (x :: l)) /\ (forall x y, P (x :: y :: l))) as H.
  { induction l as [|z l (IH1 & IH2 & IH3)]; repeat split; auto. }
  intros l. apply H.
Qed.

Lemma base64url_char_in_alphabet (n : N) :
  n < 64 -> Base64url.in_alphabet (Base64url.char n) = true.
Proof.
  intros H. unfold Base64url.char, Base64url.in_alphabet.
  destruct (n <? 26) eqn:E1; [|destruct (n <? 52) eqn:E2;
    [|destruct (n <? 62) eqn:E3; [|destruct (n =? 62) eqn:E4]]]; bools.
  - replace (65 <=? 65 + n) with true by (symmetry; apply N.leb_le; lia).
    replace (65 + n <=? 90) with true by (symmetry; apply N.leb_le; lia).
    reflexivity.
  - replace (97 <=? 71 + n) with true by (symmetry; apply N.leb_le; lia).
    replace (71 + n <=? 122) with true by (symmetry; apply N.leb_le; lia).
    cbn [andb]. now rewrite orb_true_r.
  - replace (48 <=? n - 4) with true by (symmetry; apply N.leb_le; lia).
    replace (n - 4 <=? 57) with true by (symmetry; apply N.leb_le; lia).
    cbn [andb]. now rewrite !orb_true_r.
  - reflexivity.
  - reflexivity.
Qed.

Lemma base64url_encode_alphabet (b : Buffer) :
  forallb Base64url.in_alphabet (Base64url.encode b) = true.
Proof.
  induction b as [| x | x y | x y z b IH] using triple_induction;
    [reflexivity | | |];
    cbn [Base64url.encode forallb]; cbv zeta;
    pose proof (Byte.to_N_bounded x) as Hx;
    try pose proof (Byte.to_N_bounded y) as Hy;
    try pose proof (Byte.to_N_bounded z) as Hz;
    pose proof (split64 (Byte.to_N x));
    rewrite ?IH, ?base64url_char_in_alphabet; try reflexivity.
  all: try (apply N.Div0.div_lt_upper_bound; lia).
  all: try (pose proof (N.mod_lt (Byte.to_N x) 4 ltac:(lia));
            try pose proof (N.mod_lt (Byte.to_N y) 16 ltac:(lia));
            try pose proof (N.mod_lt (Byte.to_N z) 64 ltac:(lia));
            try assert (Byte.to_N y / 16 < 16)
              by (apply N.Div0.div_lt_upper_bound; lia);
            try assert (Byte.to_N z / 64 < 4)
              by (apply N.Div0.div_lt_upper_bound; lia);
            lia).
Qed.

Lemma base64url_encode_length (b : Buffer) :
  (length b <= length (Base64url.encode b))%nat.
Proof.
  induction b as [| x | x y | x y z b IH] using triple_induction;
    cbn [Base64url.encode length]; lia.
Qed.

(** X5.  [generateSecureString(n)] returns exactly [n] characters, all of
    them letters, digits, [-] or [_], and reads [n] bytes of the random
    source. *)
Theorem generateSecureString_shape (n : nat) (e : Entropy) :
  let s := fst (generateSecureString n e) in
  length s = n
  /\ forallb Base64url.in_alphabet s = true
  /\ cursor (snd (generateSecureString n e)) = (cursor e + n)%nat.
Proof.
  cbv zeta. unfold generateSecureString.
  pose proof (randomBytes_length n e) as Hl.
  assert (cursor (snd (randomBytes n e)) = (cursor e + n)%nat) as Hc by reflexivity.
  destruct (randomBytes n e) as [b e']. cbn [fst snd] in *.
  pose proof (base64url_encode_length b) as Hb.
  pose proof (base64url_encode_alphabet b) as Ha.
  repeat split.
  - rewrite length_firstn. lia.
  - rewrite forallb_forall in *. intros c Hc'. apply Ha.
    rewrite <- (firstn_skipn n (Base64url.encode b)). apply in_or_app. now left.
  - assumption.
Qed.

(* ================================================================ *)
(** ** The rate limiter *)


Lemma rl_get_set_other (k k' : jsstring) (v : RateEntry) (m : RateMap) :
  k' <> k -> rl_get k' (rl_set k v m) = rl_get k' m.
Proof.
  intros Hne. induction m as [|[k0 v0] m IH]; cbn [rl_set rl_get].
  - replace (jseqb k k') with false; [reflexivity|].
    symmetry. apply jseqb_neq. congruence.
  - destruct (jseqb k0 k) eqn:E; cbn [rl_get].
    + apply jseqb_eq in E. subst k0.
      replace (jseqb k k') with false; [reflexivity|].
      symmetry. apply jseqb_neq. congruence.
    + now rewrite IH.
Qed.



(** X7.  The limiter counts each client apart: a request of one client
    leaves the entry of every other client as it was, and a request that
    is answered 429 leaves the whole map as it was. *)
Theorem rate_limiter_isolation
    (maxRequests windowMs : N) (requests : RateMap)
    (ip remote : option jsstring) (now : time) :
  (forall other,
      other <> client_address ip remote ->
      rl_get other (snd (rateLimiter maxRequests windowMs requests ip remote now))
      = rl_get other requests)
  /\ (forall r,
      fst (rateLimiter maxRequests windowMs requests ip remote now) = Answered r ->
      r = failure 429 "Too many requests, please try again later"
      /\ snd (rateLimiter maxRequests windowMs requests ip remote now) = requests).
Proof.
  unfold rateLimiter. split.
  - intros other Hne.
    destruct (rl_get (client_address ip remote) requests) as [u|];
      [destruct (rl_resetTime u <? now); [|destruct (maxRequests <=? rl_count u)]|];
      cbn [snd]; try reflexivity; now apply rl_get_set_other.
  - intros r.
    destruct (rl_get (client_address ip remote) requests) as [u|];
      [destruct (rl_resetTime u <? now); [|destruct (maxRequests <=? rl_count u)]|];
      cbn [fst snd]; try discriminate.
    intros [= <-]. split; reflexivity.
Qed.

(* ================================================================ *)
(** ** Password strength on the registration page *)

Lemma strength_score_bounds (c : code_unit) (pw : jsstring) :
  (1 <= strength_score (c :: pw) <= 5)%nat.
Proof.
  unfold strength_score, test. cbn [existsb].
  destruct (is_lower c) eqn:El; destruct (is_upper c) eqn:Eu;
    destruct (is_digit c) eqn:Ed; cbn [orb negb point];
    repeat match goal with
      | |- context [point ?b] => destruct b; cbn [point]
      end; lia.
Qed.

(** X8.  A password that is not empty scores between 1 and 5 and gets
    the label of its score, one of the five; only the empty password has
    score 0 and no label. *)
Theorem getPasswordStrength_label (pw : jsstring) :
  (pw = [] -> score (getPasswordStrength pw) = 0%nat /\ label (getPasswordStrength pw) = [])
  /\ (pw <> [] ->
      (1 <= score (getPasswordStrength pw) <= 5)%nat
      /\ nth_error labels (score (getPasswordStrength pw) - 1)
         = Some (label (getPasswordStrength pw))).
Proof.
  split.
  - intros ->. split; reflexivity.
  - intros Hne. destruct pw as [|c pw]; [contradiction|].
    pose proof (strength_score_bounds c pw) as Hb.
    unfold getPasswordStrength. cbn [score label]. split; [assumption|].
    remember (strength_score (c :: pw)) as n eqn:En. clear En.
    destruct n as [|[|[|[|[|[|n]]]]]]; try lia; reflexivity.
Qed.

Lemma point_le (a b : bool) : (a = true -> b = true) -> (point a <= point b)%nat.
Proof. destruct a, b; cbn; intros H; try lia; now specialize (H eq_refl). Qed.

Lemma test_app (class : code_unit -> bool) (pre pw post : jsstring) :
  test class pw = true -> test class (pre ++ pw ++ post) = true.
Proof.
  unfold test. intros H. rewrite !existsb_app, H. now rewrite orb_true_r.
Qed.

(** X9.  Adding characters in front of a password or behind it never
    lowers its score. *)
Theorem getPasswordStrength_monotone (pre pw post : jsstring) :
  (score (getPasswordStrength pw) <= score (getPasswordStrength (pre ++ pw ++ post)))%nat.
Proof.
  destruct pw as [|c pw]; [cbn [getPasswordStrength score]; lia|].
  assert (score (getPasswordStrength (pre ++ (c :: pw) ++ post))
          = strength_score (pre ++ (c :: pw) ++ post)) as ->.
  { destruct (pre ++ (c :: pw) ++ post) eqn:E; [|reflexivity].
    apply app_eq_nil in E. destruct E as [_ E]. discriminate. }
  cbn [getPasswordStrength score]. unfold strength_score.
  repeat apply Nat.add_le_mono; apply point_le; try apply test_app.
  intros H. apply Nat.leb_le in H. apply Nat.leb_le.
  rewrite !length_app. lia.
Qed.

(* ================================================================ *)
(** ** The middleware never throws and never writes *)

Lemma try_catch_answers {A} (m : M A) (h : exn -> M A) (w : World) :
  (forall e w', exists a, fst (h e w') = Ok a) ->
  exists a, fst (try_catch m h w) = Ok a.
Proof.
  intros Hh. unfold try_catch. destruct (m w) as [[a|e] w'].
  - now exists a.
  - apply Hh.
Qed.

(** X10.  [authenticate] always ends by passing the request on or by
    answering it, whatever query fails, and leaves the store as it was. *)
Theorem authenticate_answers_and_reads {B} (now : time) (req : Request B) (w : World) :
  (exists g, fst (authenticate now req w) = Ok g)
  /\ db (snd (authenticate now req w)) = db w.
Proof.
  split.
  - apply try_catch_answers. intros e w'.
    destruct (instanceof_JsonWebTokenError e); [eexists; reflexivity|].
    destruct (instanceof_TokenExpiredError e); eexists; reflexivity.
  - revert w. change (preserves (fun d => d) (authenticate now req)).
    unfold authenticate, jwt_verify. preserve.
Qed.

(** X11.  [optionalAuth] runs the checks of [authenticate] and never
    answers: in every world it passes the request on, with [req.user] set
    to the user [authenticate] would have let through, and left as it was
    wherever [authenticate] would have answered. *)
Theorem optionalAuth_follows_authenticate {B}
    (now : time) (req : Request B) (w : World) :
  optionalAuth now req w
  = (Ok match fst (authenticate now req w) with
        | Ok (Next u) => Some u
        | _ => req_user req
        end,
     snd (authenticate now req w)).
Proof.
  unfold optionalAuth, authenticate.
  destruct (nonempty (authorization req)) as [h|]; [|reflexivity].
  destruct (startsWith h (js "Bearer ")); cbn [negb]; [|reflexivity].
  destruct (nonempty (JWT_SECRET env)) as [secret|]; [|reflexivity].
  unfold jwt_verify.
  destruct (jwt_decode secret (substring 7 h)) as [p|]; [|reflexivity].
  destruct (exp p <=? now / 1000); [reflexivity|].
  destruct w as [d fs en nu].
  destruct fs as [|[|] fs]; run; try reflexivity;
    (destruct (filter _ (sessions d)); [reflexivity|]);
    run; try (destruct fs as [|[|] fs]); run; try reflexivity;
    destruct (filter _ (users d)); reflexivity.
Qed.

(* ================================================================ *)
(** ** Invariants of the store *)

Section Invariants.

Context {T : Type} (f : Db -> list T).

Lemma appends_ret {A} (a : A) : appends f (ret a).
Proof. intros w. exists []. cbn. now rewrite app_nil_r. Qed.

Lemma appends_throw {A} (e : exn) : appends f (@throw A e).
Proof. intros w. exists []. cbn. now rewrite app_nil_r. Qed.

Lemma appends_bind {A B} (m : M A) (k : A -> M B) :
  appends f m -> (forall a, appends f (k a)) -> appends f (bind m k).
Proof.
  intros Hm Hk w. unfold bind. destruct (Hm w) as [r1 H1].
  destruct (m w) as [[a|e] w']; cbn [snd] in *; [|now exists r1].
  destruct (Hk a w') as [r2 H2]. exists (r1 ++ r2). now rewrite H2, H1, app_assoc.
Qed.

Lemma appends_try_catch {A} (m : M A) (h : exn -> M A) :
  appends f m -> (forall e, appends f (h e)) -> appends f (try_catch m h).
Proof.
  intros Hm Hh w. unfold try_catch. destruct (Hm w) as [r1 H1].
  destruct (m w) as [[a|e] w']; cbn [snd] in *; [now exists r1|].
  destruct (Hh e w') as [r2 H2]. exists (r1 ++ r2). now rewrite H2, H1, app_assoc.
Qed.

Lemma appends_query {A} (st : Db -> outcome A * Db) :
  (forall d, exists rows, f (snd (st d)) = f d ++ rows) -> appends f (query st).
Proof.
  intros Hst w. unfold query. destruct (Hst (db w)) as [rows H].
  destruct (faults w) as [|[|] fs]; destruct (st (db w)); cbn in *;
    first [now exists rows | exists []; now rewrite app_nil_r].
Qed.

Lemma appends_with_entropy {A} (g : Entropy -> A * Entropy) : appends f (with_entropy g).
Proof.
  intros w. exists []. unfold with_entropy. destruct (g (entropy w)).
  cbn. now rewrite app_nil_r.
Qed.

Lemma appends_uuidv4 : appends f uuidv4.
Proof. intros w. exists []. cbn. now rewrite app_nil_r. Qed.

End Invariants.

(** Splits a computation along its binds and branches; the statements are
    left to [tac]. *)
Ltac walk ret_l throw_l uuid_l entropy_l try_l bind_l query_l tac :=
  repeat first
    [ apply ret_l
    | apply throw_l
    | apply uuid_l
    | apply entropy_l
    | apply try_l; [|intros ?]
    | apply bind_l; [|intros ?]
    | apply query_l; tac
    | match goal with
      | |- _ _ (match ?x with _ => _ end) => destruct x
      | |- _ _ (let _ := _ in _) => cbv zeta
      end ].

Ltac split_ifs :=
  repeat match goal with
    | |- context [if ?b then _ else _] => destruct b
    | |- context [match ?x with Some _ => _ | None => _ end] => destruct x
    end.

Ltac append_only :=
  walk appends_ret appends_throw appends_uuidv4 appends_with_entropy
       appends_try_catch appends_bind appends_query
       ltac:(intros ?;
             unfold Sql.select_users_by_email, Sql.insert_user, Sql.insert_session,
               Sql.update_session_token, Sql.insert_credential;
             cbv zeta; split_ifs;
             first [ exists []; cbn; now rewrite app_nil_r
                   | eexists; reflexivity ]).

(** X14.  The audit table only grows: every handler and both middlewares
    leave the rows that were there in place and in order, and at most add
    rows behind them, whatever query fails. *)
Theorem audit_is_append_only
    (now : time) (rreq : Request RegisterRequest) (lreq : Request LoginRequest)
    (creq : Request CreateCredentialRequest) (ureq : Request UpdateCredentialRequest)
    {B} (req : Request B) :
  appends security_audit (register now rreq)
  /\ appends security_audit (login now lreq)
  /\ appends security_audit (refreshToken now req)
  /\ appends security_audit (logout now req)
  /\ appends security_audit (create now creq)
  /\ appends security_audit (update now ureq)
  /\ appends security_audit (delete now req)
  /\ appends security_audit (toggleFavorite now req)
  /\ appends security_audit (authenticate now req)
  /\ appends security_audit (optionalAuth now req).
Proof.
  repeat match goal with |- _ /\ _ => split end.
  - unfold register, hashPassword. append_only.
  - unfold login, login_second_factor, login_issue, authenticator_verify, verifyPassword.
    append_only.
  - unfold refreshToken. append_only.
  - unfold logout. append_only.
  - unfold create. append_only.
  - unfold update. append_only.
  - unfold delete. append_only.
  - unfold toggleFavorite. append_only.
  - unfold authenticate, jwt_verify. append_only.
  - unfold optionalAuth, jwt_verify. append_only.
Qed.

Lemma update_last_login_identity (id : uuid) (now : time) (d : Db) :
  List.map identity (users (snd (Sql.update_last_login id now d)))
  = List.map identity (users d).
Proof.
  unfold Sql.update_last_login. cbn [snd users Sql.set_users].
  rewrite map_map. apply map_ext. intros u. now destruct (u_id u =? id).
Qed.

Ltac preserve_with tac :=
  walk preserves_ret preserves_throw preserves_uuidv4 preserves_with_entropy
       preserves_try_catch preserves_bind preserves_query
       ltac:(intros ?; cbv beta;
             first [ tac
                   | unfold Sql.select_users_by_email, Sql.insert_user,
                       Sql.insert_session, Sql.update_session_token,
                       Sql.insert_credential;
                     cbv zeta; split_ifs; reflexivity ]).

(** X15.  Logging in, refreshing and logging out never change who a user
    is: the identifier, e-mail address, password hash, key salt and
    second-factor settings of every user row are the same afterwards,
    whatever the request and whatever query fails. *)
Theorem sessions_leave_identities
    (now : time) (lreq : Request LoginRequest) {B} (req : Request B) :
  preserves (fun d => List.map identity (users d)) (login now lreq)
  /\ preserves (fun d => List.map identity (users d)) (refreshToken now req)
  /\ preserves (fun d => List.map identity (users d)) (logout now req).
Proof.
  split; [|split].
  - unfold login, login_second_factor, login_issue, authenticator_verify, verifyPassword.
    preserve_with ltac:(apply update_last_login_identity).
  - unfold refreshToken. preserve_with fail.
  - unfold logout. preserve_with fail.
Qed.

(* ================================================================ *)
(** ** Credentials *)

Lemma others_update (id uid : uuid) (f : Credential -> Credential) (d : Db) :
  (forall c, c_userId (f c) = c_userId c) ->
  credentials_of_others uid (snd (Sql.update_credential id uid f d))
  = credentials_of_others uid d.
Proof.
  intros Hf. unfold credentials_of_others, Sql.update_credential.
  cbn [snd credentials Sql.set_credentials].
  induction (credentials d) as [|c l IH]; [reflexivity|].
  cbn [List.map filter]. rewrite IH.
  destruct ((c_id c =? id) && (c_userId c =? uid)) eqn:E; [|reflexivity].
  rewrite Hf. bools.
  match goal with H : c_userId c = uid |- _ => rewrite H end.
  now rewrite N.eqb_refl.
Qed.

Lemma others_delete (id uid : uuid) (d : Db) :
  credentials_of_others uid (snd (Sql.delete_credential id uid d))
  = credentials_of_others uid d.
Proof.
  unfold credentials_of_others, Sql.delete_credential.
  cbn [snd credentials Sql.set_credentials Sql.set_password_history].
  induction (credentials d) as [|c l IH]; [reflexivity|].
  cbn [filter].
  destruct ((c_id c =? id) && (c_userId c =? uid)) eqn:E; cbn [negb filter].
  - rewrite IH. bools.
    match goal with H : c_userId c = uid |- _ => rewrite H end.
    now rewrite N.eqb_refl.
  - now rewrite IH.
Qed.

Lemma others_insert (c : Credential) (d : Db) :
  credentials_of_others (c_userId c) (snd (Sql.insert_credential c d))
  = credentials_of_others (c_userId c) d.
Proof.
  unfold credentials_of_others, Sql.insert_credential.
  destruct (Sql.stored_credential c d) as [row|] eqn:E; [|reflexivity].
  apply stored_credential_keys in E. destruct E as [_ E].
  cbn [snd credentials Sql.set_credentials].
  rewrite filter_app. cbn [filter]. rewrite E, N.eqb_refl. cbn [negb].
  apply app_nil_r.
Qed.

(** X16.  [create], [delete] and [toggleFavorite] only ever write
    credentials of the user they are called for: whatever the request and
    whatever query fails, they leave the credential rows of every other
    user as they were. *)
Theorem credentials_of_others_untouched
    (now : time) (user : User)
    (creq : Request CreateCredentialRequest) {B} (req : Request B) :
  (req_user creq = Some user ->
   preserves (credentials_of_others (u_id user)) (create now creq))
  /\ (req_user req = Some user ->
      preserves (credentials_of_others (u_id user)) (delete now req))
  /\ (req_user req = Some user ->
      preserves (credentials_of_others (u_id user)) (toggleFavorite now req)).
Proof.
  repeat match goal with |- _ /\ _ => split end; intros Hu.
  - unfold create. rewrite Hu.
    preserve_with ltac:(
      idtac;
      match goal with
      | |- context [Sql.insert_credential ?c] => apply (others_insert c)
      end).
  - unfold delete. rewrite Hu.
    preserve_with ltac:(apply others_delete).
  - unfold toggleFavorite. rewrite Hu.
    preserve_with ltac:(apply others_update; reflexivity).
Qed.

Lemma update_credential_field {T} (g : Credential -> T) (id uid : uuid)
    (f : Credential -> Credential) (d : Db) :
  (forall c, g (f c) = g c) ->
  List.map g (credentials (snd (Sql.update_credential id uid f d)))
  = List.map g (credentials d).
Proof.
  intros Hf. unfold Sql.update_credential. cbn [snd credentials Sql.set_credentials].
  rewrite map_map. apply map_ext. intros c.
  destruct ((c_id c =? id) && (c_userId c =? uid)); [apply Hf | reflexivity].
Qed.

(** X18.  [toggleFavorite] never adds or removes a credential row and
    never changes the identifier or the owner of one, whatever the
    request and whatever query fails. *)
Theorem credentials_keep_their_owner {B} (now : time) (req : Request B) :
  preserves (fun d => List.map (fun c => (c_id c, c_userId c)) (credentials d))
            (toggleFavorite now req).
Proof.
  unfold toggleFavorite.
  preserve_with ltac:(
    apply (update_credential_field (fun c => (c_id c, c_userId c))); reflexivity).
Qed.

Lemma filter_filter_negb {A} (p : A -> bool) (l : list A) :
  filter p (filter (fun x => negb (p x)) l) = [].
Proof.
  induction l as [|x l IH]; [reflexivity|]. cbn [filter].
  destruct (p x) eqn:E; cbn [negb filter]; [assumption|]. now rewrite E.
Qed.

(** X19.  After a credential has been deleted, no row of that identifier
    and owner is left, the rows of the password history that belonged to
    it are gone as well, and deleting it again is answered 404 and
    changes nothing. *)
Theorem delete_then_not_found {B}
    (now now2 : time) (req : Request B) (w w1 : World) (r : Response) (user : User) :
  faults w = [] -> req_user req = Some user ->
  delete now req w = (Ok r, w1) -> success r = true ->
  credentials (db w1)
  = filter (fun c => negb (owned (param_id req) (u_id user) c)) (credentials (db w))
  /\ (forall h, In h (password_history (db w1)) ->
                forall c, In c (credentials (db w)) ->
                          owned (param_id req) (u_id user) c = true ->
                          ph_credentialId h <> c_id c)
  /\ delete now2 req w1 = (Ok (failure 404 "Credential not found"), w1).
Proof.
  intros Hf Hu Hrun Hok.
  destruct w as [d fs en nu]. cbn [faults db] in *. subst fs.
  unfold delete in Hrun. rewrite Hu in Hrun. revert Hrun. run.
  unfold Sql.select_credential_title. run.
  destruct (filter _ (credentials d)) as [|c0 l] eqn:E; cbn [List.map];
    [intros [= <- <-]; discriminate|].
  unfold Sql.delete_credential. run. intros [= <- <-].
  cbn [db credentials password_history Sql.set_password_history Sql.set_credentials
       Sql.set_security_audit].
  split; [reflexivity|]. split.
  - intros h Hh c Hc Hown Heq. apply filter_In in Hh. destruct Hh as [_ Hh].
    apply negb_true_iff in Hh.
    assert (existsb (N.eqb (ph_credentialId h))
                    (List.map c_id (filter (fun c => (c_id c =? param_id req)
                                                     && (c_userId c =? u_id user))
                                           (credentials d))) = true) as Ht; [|congruence].
    apply existsb_exists. exists (c_id c). split; [|now apply N.eqb_eq].
    apply in_map. apply filter_In. split; assumption.
  - unfold delete. rewrite Hu. run. unfold Sql.select_credential_title. run.
    cbn [credentials Sql.set_password_history Sql.set_credentials Sql.set_security_audit].
    now rewrite (filter_filter_negb
                   (fun c => (c_id c =? param_id req) && (c_userId c =? u_id user))).
Qed.

Lemma toggleFavorite_world {B} (now : time) (req : Request B) (w : World) (user : User) :
  faults w = [] -> req_user req = Some user ->
  snd (toggleFavorite now req w)
  = {| db := Sql.set_credentials
               (List.map (fun c => if owned (param_id req) (u_id user) c
                                   then Sql.flip_favorite now c else c)
                         (credentials (db w))) (db w);
       faults := []; entropy := entropy w; next_uuid := next_uuid w |}.
Proof.
  intros Hf Hu. destruct w as [d fs en nu]. cbn [faults db] in *. subst fs.
  unfold toggleFavorite. rewrite Hu. run. unfold Sql.update_credential. run.
  destruct (List.map _ (filter _ (credentials d))); reflexivity.
Qed.

(** X20.  Toggling the favourite flag of a credential twice gives every
    credential row its content back; only the time of update differs. *)
Theorem toggleFavorite_twice {B} (now now2 : time) (req : Request B) (w : World) :
  faults w = [] ->
  List.map content
    (credentials (db (snd (toggleFavorite now2 req (snd (toggleFavorite now req w))))))
  = List.map content (credentials (db w)).
Proof.
  intros Hf. destruct (req_user req) as [user|] eqn:Hu.
  - rewrite (toggleFavorite_world now req w Hf Hu).
    erewrite toggleFavorite_world; [|reflexivity|exact Hu].
    cbn [db credentials Sql.set_credentials].
    rewrite !map_map. apply map_ext. intros c.
    destruct (owned (param_id req) (u_id user) c) eqn:E.
    + replace (owned (param_id req) (u_id user) (Sql.flip_favorite now c)) with true
        by (symmetry; exact E).
      unfold content, Sql.flip_favorite. cbn. now rewrite negb_involutive.
    + now rewrite E.
  - unfold toggleFavorite. rewrite Hu. reflexivity.
Qed.

(* ================================================================ *)
(** ** Sessions from login to logout *)

Lemma deleted_token_absent (token : jsstring) (c : Session -> bool) (l : list Session) :
  filter (fun s => jseqb (s_token s) token && c s)
         (filter (fun s => negb (jseqb (s_token s) token)) l) = [].
Proof.
  induction l as [|s l IH]; [reflexivity|]. cbn [filter].
  destruct (jseqb (s_token s) token) eqn:E; cbn [negb filter]; [assumption|].
  now rewrite E.
Qed.

Lemma other_token_kept (token token' : jsstring) (c : Session -> bool) (l : list Session) :
  token' <> token ->
  filter (fun s => jseqb (s_token s) token' && c s)
         (filter (fun s => negb (jseqb (s_token s) token)) l)
  = filter (fun s => jseqb (s_token s) token' && c s) l.
Proof.
  intros Hne. induction l as [|s l IH]; [reflexivity|]. cbn [filter].
  destruct (jseqb_spec (s_token s) token) as [E|E]; cbn [negb filter].
  - rewrite IH. replace (jseqb (s_token s) token') with false; [reflexivity|].
    symmetry. apply jseqb_neq. congruence.
  - now rewrite IH.
Qed.

(** X21.  A logout behind the middleware that succeeds removes exactly
    the session rows that held the token of the request and records a
    LOGOUT audit row; afterwards that token is refused with 401 at any
    time, and every other token is judged as before. *)
Theorem logout_revokes_token {B}
    (now : time) (req : Request B) (w w' : World) (secret token : jsstring)
    (r : Response) :
  faults w = [] -> JWT_SECRET env = Some secret -> secret <> [] ->
  authorization req = bearer token ->
  protected logout now req w = (Ok r, w') ->
  success r = true ->
  sessions (db w') = filter (fun s => negb (jseqb (s_token s) token)) (sessions (db w))
  /\ (exists user, security_audit (db w')
                   = security_audit (db w)
                     ++ [audit (u_id user) "LOGOUT" (js "User logged out") req])
  /\ (forall now' B' (req' : Request B'),
         authorization req' = bearer token ->
         exists r', authenticate now' req' w' = (Ok (Sent r'), w') /\ status r' = 401)
  /\ (forall token' now' B' (req' : Request B'),
         token' <> token ->
         authorization req' = bearer token' ->
         fst (authenticate now' req' w') = fst (authenticate now' req' w)).
Proof.
  intros Hf Hs Hsne Ha Hrun Hok.
  unfold protected, bind in Hrun.
  rewrite (authenticate_no_faults now req w Hf Hs Hsne Ha) in Hrun.
  destruct (jwt_decode secret token) as [p|] eqn:Hp;
    [|injection Hrun as <- <-; discriminate].
  destruct (exp p <=? now / 1000) eqn:Hx; [injection Hrun as <- <-; discriminate|].
  destruct (filter _ (sessions (db w))) as [|s ss] eqn:Es;
    [injection Hrun as <- <-; discriminate|].
  destruct (filter _ (users (db w))) as [|u us] eqn:Eu;
    [injection Hrun as <- <-; discriminate|].
  destruct w as [d fs en nu]. cbn [faults db] in *. subst fs.
  destruct (bearer_header token) as (E1 & E2 & E3).
  unfold logout in Hrun. cbn [req_user authorization] in Hrun.
  rewrite Ha, E1, E2, E3 in Hrun.
  revert Hrun. run. unfold Sql.delete_session. run.
  intros Hrun; injection Hrun as <- <-.
  cbn [db sessions security_audit users Sql.set_sessions Sql.set_security_audit].
  split; [reflexivity|]. split; [exists u; reflexivity|]. split.
  - intros now' B' req' Ha'.
    erewrite authenticate_no_faults; [|reflexivity|exact Hs|exact Hsne|exact Ha'].
    rewrite Hp. cbn [db sessions Sql.set_sessions Sql.set_security_audit].
    rewrite deleted_token_absent.
    destruct (exp p <=? now' / 1000); eexists; split; reflexivity.
  - intros token' now' B' req' Hne Ha'.
    erewrite !authenticate_no_faults;
      [|reflexivity|exact Hs|exact Hsne|exact Ha'
       |reflexivity|exact Hs|exact Hsne|exact Ha'].
    cbn [fst db sessions users Sql.set_sessions Sql.set_security_audit].
    now rewrite other_token_kept.
Qed.

(* ------------------------------------------------------------------ *)
(** *** Registering twice *)




(** The server reads a string as a sequence of characters of the same
    length in code units. *)
Lemma chars_length_aux (s : jsstring) :
  length (concat (Sql.chars s)) = length s
  /\ forall c, length (concat (Sql.chars (c :: s))) = S (length s).
Proof.
  induction s as [|d s [IH1 IH2]]; split.
  - reflexivity.
  - intros c. cbn [Sql.chars].
    destruct (is_high_surrogate c); [reflexivity|].
    destruct (is_low_surrogate c); reflexivity.
  - exact (IH2 d).
  - intros c. change (Sql.chars (c :: d :: s))
      with (if is_high_surrogate c
            then if is_low_surrogate d then [c; d] :: Sql.chars s
                 else [0xFFFD] :: Sql.chars (d :: s)
            else if is_low_surrogate c then [0xFFFD] :: Sql.chars (d :: s)
                 else [c] :: Sql.chars (d :: s)).
    destruct (is_high_surrogate c); [destruct (is_low_surrogate d)|
                                     destruct (is_low_surrogate c)];
      cbn [concat app length]; rewrite ?IH1, ?(IH2 d); reflexivity.
Qed.

(** A string that a [VARCHAR] column holds as it is reaches the server
    as it is. *)
Lemma varchar_fits_text (n : nat) (s : jsstring) :
  Sql.varchar n s = Some s -> Sql.text s = Some s.
Proof.
  unfold Sql.varchar, Sql.text.
  destruct (existsb (N.eqb 0) s); [discriminate|].
  destruct (forallb _ _); [|discriminate].
  intros [= H]. f_equal.
  pose proof (proj1 (chars_length_aux s)) as Hl.
  rewrite <- (firstn_skipn n (Sql.chars s)), concat_app, H, length_app in Hl.
  rewrite <- (firstn_skipn n (Sql.chars s)), concat_app, H.
  destruct (concat (skipn n (Sql.chars s))); [apply app_nil_r|].
  cbn [length] in Hl. lia.
Qed.



(** What a registration that succeeded has read and written. *)
Lemma register_success_inv
    (now : time) (req : Request RegisterRequest) (w w1 : World) (r : Response) :
  faults w = [] -> register now req w = (Ok r, w1) -> success r = true ->
  exists mail pw u,
    r_email (body req) = Some mail /\ mail <> []
    /\ r_password (body req) = Some pw /\ pw <> []
    /\ fst (Sql.select_users_by_email (toLowerCase mail) (db w)) = Ok []
    /\ u_id u = next_uuid w
    /\ Sql.varchar 255 (toLowerCase mail) = Some (u_email u)
    /\ (exists s, Sql.varchar 255 (bcrypt_hash pw 12 s) = Some (password_hash u))
    /\ r = reply 201 (Some "User registered successfully"%string)
               (Some (RegisterData (u_id u) (u_email u) Undefined))
    /\ users (db w1) = users (db w) ++ [u]
    /\ sessions (db w1) = sessions (db w)
    /\ faults w1 = [].
Proof.
  destruct w as [d fs en nu]. cbn [faults db next_uuid]. intros -> Hrun Hok.
  revert Hrun. unfold register.
  destruct (r_email (body req)) as [[|c1 mail]|] eqn:Hm;
    destruct (r_password (body req)) as [[|c2 pw]|] eqn:Hp;
    destruct (confirmPassword (body req)) as [[|c3 cf]|] eqn:Hcf;
    cbn [nonempty]; run; try (intros [= <- <-]; discriminate).
  destruct (jseqb (c2 :: pw) (c3 :: cf)); cbn [negb]; run;
    [|intros [= <- <-]; discriminate].
  destruct (length (c2 :: pw) <? 12)%nat; run; [intros [= <- <-]; discriminate|].
  destruct (Sql.select_users_by_email (toLowerCase (c1 :: mail)) d)
    as [[[|x xs]|ex] d'] eqn:Hu; run; try (intros [= <- <-]; discriminate).
  assert (d' = d) as ->
    by (revert Hu; unfold Sql.select_users_by_email;
        destruct (Sql.text _); now intros [= _ <-]).
  unfold hashPassword, with_entropy. cbn [entropy].
  destruct (randomBytes 16 en) as [s e1]. run.
  destruct (generateSalt e1) as [salt e2]. run.
  unfold Sql.insert_user.
  destruct (Sql.varchar 255 (toLowerCase (c1 :: mail))) as [e|] eqn:He;
    [|run; intros [= <- <-]; discriminate].
  destruct (Sql.varchar 255 (bcrypt_hash (c2 :: pw) 12 s)) as [h|] eqn:Hh;
    [|run; intros [= <- <-]; discriminate].
  destruct (Sql.varchar 255 salt) as [st|] eqn:Hst;
    [|run; intros [= <- <-]; discriminate].
  match goal with
  | |- context [existsb ?f (users d)] => destruct (existsb f (users d)) eqn:Hx
  end; run; [intros [= <- <-]; discriminate|].
  intros [= <- <-].
  exists (c1 :: mail), (c2 :: pw).
  match goal with
  | |- context [Sql.set_users (users d ++ [?x])] => exists x
  end.
  cbn [db faults sessions users Sql.set_users Sql.set_security_audit
       u_id u_email password_hash].
  repeat match goal with |- _ /\ _ => split end;
    try reflexivity; try discriminate; try assumption.
  - now rewrite Hu.
  - exists s. exact Hh.
Qed.

(** X27.  After a registration that succeeded, with an address that the
    [email] column holds as it is (at most 255 characters, well formed), a
    registration whose fields pass the three validations and whose e-mail
    lower-cases to the same address is answered 409 "User with this email
    already exists", whatever its password, and changes nothing. *)
Theorem register_again_conflicts
    (now now2 : time) (req req2 : Request RegisterRequest) (w w1 : World)
    (r : Response) (mail mail2 pw2 : jsstring) :
  faults w = [] -> register now req w = (Ok r, w1) -> success r = true ->
  r_email (body req) = Some mail ->
  Sql.varchar 255 (toLowerCase mail) = Some (toLowerCase mail) ->
  r_email (body req2) = Some mail2 -> mail2 <> [] ->
  toLowerCase mail2 = toLowerCase mail ->
  r_password (body req2) = Some pw2 -> confirmPassword (body req2) = Some pw2 ->
  (12 <= length pw2)%nat ->
  register now2 req2 w1
  = (Ok (failure 409 "User with this email already exists"), w1).
Proof.
  intros Hf Hrun Hok Hm Hfit Hm2 Hne Hlow Hp2 Hc2 Hlen.
  destruct (@register_success_inv now req w w1 r Hf Hrun Hok)
    as (mail' & pw & u & Hm' & _ & _ & _ & Hnone & _ & Hmail & _ & _
        & Husers & _ & Hf1).
  rewrite Hm in Hm'. injection Hm' as <-.
  rewrite Hfit in Hmail. injection Hmail as Hmail. symmetry in Hmail.
  assert (pw2 <> []) as Hpne by (intros ->; cbn in Hlen; lia).
  destruct w1 as [d1 fs1 en1 nu1]. cbn [faults db] in *. subst fs1.
  unfold register. rewrite Hm2, Hp2, Hc2, !nonempty_some by assumption.
  rewrite jseqb_refl. cbn [negb].
  replace (length pw2 <? 12)%nat with false by (symmetry; apply Nat.ltb_ge; lia).
  unfold Sql.select_users_by_email in *.
  rewrite Hlow, (@varchar_fits_text 255 (toLowerCase mail) Hfit) in *.
  cbn [fst] in Hnone. injection Hnone as Hnone.
  run. rewrite Husers, filter_app, Hnone. cbn [filter app].
  rewrite Hmail, jseqb_refl. reflexivity.
Qed.


End Handlers.

(* ================================================================== *)
(** ** The service and the handlers on concrete inputs *)

(** Two calls in a row under one key: the stored [iv] fields differ, the
    cipher ran with the same nonce, and the ciphertexts and tags are equal. *)
Example encrypt_twice_same_nonce :
  let '(env1, c1, e1) := @encrypt_with_cipher toy_crypto (js "p@ss1234") K0 counting_entropy in
  let '(env2, c2, _) := @encrypt_with_cipher toy_crypto (js "p@ss1234") K0 e1 in
  iv env1 <> iv env2 /\ c_iv c1 = c_iv c2
  /\ encrypted env1 = encrypted env2 /\ authTag env1 = authTag env2.
Proof. vm_compute. repeat split; discriminate. Qed.

Lemma decrypt_encrypt_round_trip_witness :
  well_formed (js "p@ss1234") = true
  /\ @decrypt toy_crypto (fst (@encrypt toy_crypto (js "p@ss1234") K0 zero_entropy)) K0
     = Some (js "p@ss1234").
Proof.
  split; [reflexivity|].
  apply (@decrypt_encrypt_round_trip toy_crypto). reflexivity.
Defined.

(** C2 as stated fails on a string holding an unpaired surrogate. *)
Lemma decrypt_encrypt_not_identity :
  @decrypt toy_crypto (fst (@encrypt toy_crypto [0xD800] K0 zero_entropy)) K0
  <> Some [0xD800].
Proof. rewrite decrypt_encrypt_lone_surrogate. discriminate. Qed.

Lemma deriveMasterKey_deterministic_witness :
  js "ab12" <> []
  /\ key (fst (@deriveMasterKey toy_crypto (js "hunter2") (Some (js "ab12")) zero_entropy))
     = key (fst (@deriveMasterKey toy_crypto (js "hunter2") (Some (js "ab12")) counting_entropy)).
Proof.
  split; [discriminate|].
  apply (@deriveMasterKey_deterministic toy_crypto (js "hunter2") (js "ab12")
           zero_entropy counting_entropy).
  discriminate.
Defined.

(** C3 as stated fails on an upper-case salt: the returned salt is its
    lower-case form. *)
Lemma deriveMasterKey_salt_not_returned :
  mk_salt (fst (@deriveMasterKey toy_crypto (js "hunter2") (Some (js "AB")) zero_entropy))
  <> js "AB".
Proof. vm_compute. discriminate. Qed.

(** The hex decoder reads the low byte of a code unit: the salt
    U+0161 U+0162 is the salt "ab". *)
Example deriveMasterKey_low_byte :
  fst (@deriveMasterKey toy_crypto (js "hunter2") (Some [0x161; 0x162]) zero_entropy)
  = fst (@deriveMasterKey toy_crypto (js "hunter2") (Some (js "ab")) zero_entropy)
  /\ mk_salt (fst (@deriveMasterKey toy_crypto (js "hunter2") (Some [0x161; 0x162])
                     zero_entropy))
     = js "ab".
Proof. split; vm_compute; reflexivity. Qed.

(* ------------------------------------------------------------------ *)
(** *** The toy libraries *)

Lemma toy_jwt_decode_encode (secret : jsstring) (p : JWTPayload) :
  toy_jwt_decode secret (toy_jwt_encode secret p) = Some p.
Proof.
  unfold toy_jwt_decode, toy_jwt_encode. cbn [app].
  rewrite Nat2N.id, skipn_app, skipn_all, Nat.sub_diag. cbn [skipn app].
  rewrite jseqb_refl, firstn_app, Nat.sub_diag, firstn_all. cbn [firstn].
  rewrite app_nil_r. now destruct p.
Qed.

(** [alice] logs in with her password: the answer is 500, and nothing
    is written. *)
Example login_alice :
  @login toy_libs env0 999 alice_login world0
  = (Ok (failure 500 "Login failed"), world0).
Proof. vm_compute. reflexivity. Qed.

(* ------------------------------------------------------------------ *)
(** *** Registration *)

Lemma register_rejects_invalid_witness :
  exists r, @register toy_libs 1000 short_registration world0 = (Ok r, world0)
            /\ status r = 400 /\ success r = false /\ data r = None.
Proof.
  apply (@register_rejects_invalid toy_libs 1000 short_registration world0).
  left. exists (js "2short"). split; [reflexivity | cbn; lia].
Defined.

(* ------------------------------------------------------------------ *)
(** *** Failed logins *)

(** The three failures of a login of [bob], whose row has a second
    factor: a wrong password, the right password without a code, the
    right password with a code.  Each is answered 500 "Login failed", and
    no audit row is written. *)
Example login_failures_alike :
  @login toy_libs env0 1000 (login_request "bob@example.com" "wrong" None) world0
  = (Ok (failure 500 "Login failed"), world0)
  /\ @login toy_libs env0 1000 (bob_login None) world0
     = (Ok (failure 500 "Login failed"), world0)
  /\ @login toy_libs env0 1000 (bob_login (Some (js "000000"))) world0
     = (Ok (failure 500 "Login failed"), world0).
Proof. repeat split; vm_compute; reflexivity. Qed.

Lemma login_failure_without_reason_witness :
  fst (@login toy_libs env0 1000 (login_request "bob@example.com" "wrong" None) world0)
  = Ok (failure 500 "Login failed")
  /\ security_audit
       (db (snd (@login toy_libs env0 1000
                   (login_request "bob@example.com" "wrong" None) world0)))
     = security_audit (db world0).
Proof.
  destruct (proj1 (@login_failure_without_reason toy_libs env0 1000
                     (login_request "bob@example.com" "wrong" None) world0
                     (js "bob@example.com") (js "wrong")
                     eq_refl ltac:(discriminate) eq_refl ltac:(discriminate))
                  bob [] eq_refl) as (H1 & H2 & _).
  split; [exact H1 | exact H2].
Defined.

(* ------------------------------------------------------------------ *)
(** *** A failing audit write *)

(** C8 as stated fails: the INSERT of a credential goes through and the
    audit write that follows it fails; the request is answered 500 and
    the credential row is in the store. *)
Lemma create_fails_with_audit :
  let '(r, w) := create 1000 new_credential
                   (world_with_faults [false; true]) in
  r = Ok (failure 500 "Failed to create credential")
  /\ List.map title (credentials (db w)) = [js "Bank"; js "Mail"]
  /\ security_audit (db w) = [].
Proof. vm_compute. repeat split. Qed.

Lemma audit_failure_fails_operation_witness :
  exists w' row,
    create 1000 new_credential (world_with_faults [false; true])
    = (Ok (failure 500 "Failed to create credential"), w')
    /\ credentials (db w') = [bank] ++ [row]
    /\ c_userId row = 1
    /\ security_audit (db w') = [].
Proof.
  destruct (@audit_failure_fails_operation 1000 new_credential
              (world_with_faults [false; true]) alice
              (js "Mail") (js "alice") (js "envelope-m")
              (requested_credential 1000 new_credential alice
                 (js "Mail") (js "alice") (js "envelope-m") 100) [])
    as (w' & H1 & H2 & _ & H4 & H5);
    [reflexivity | reflexivity | reflexivity | reflexivity | exact I
    | vm_compute; reflexivity | reflexivity |].
  exists w'. eexists. split; [exact H1|]. split; [exact H2|]. split; [exact H4 | exact H5].
Defined.

(* ------------------------------------------------------------------ *)
(** *** Validation *)

(** C6 as stated fails.  A session of [alice] was issued at 999 ms: the
    session row expires at 86 400 999 ms, the token itself at 86 400 s.
    At 86 400 000 ms the row holds the token and has not expired, and the
    request is answered 401 "Invalid token". *)
Lemma unexpired_session_row_rejected :
  existsb (fun s => jseqb (s_token s) (alice_token 999) && (86400000 <? expiresAt s))
          (sessions (db (world1 999))) = true
  /\ @authenticate toy_libs env0 unit 86400000
       (request (bearer (alice_token 999)) tt None 0) (world1 999)
     = (Ok (Sent (failure 401 "Invalid token")), world1 999).
Proof. split; vm_compute; reflexivity. Qed.

Lemma authenticate_accepts_iff_witness :
  @authenticate toy_libs env0 unit 5000
    (request (bearer (alice_token 999)) tt None 0) (world1 999)
  = (Ok (Next (hd alice (users (db (world1 999))))), world1 999).
Proof.
  apply (proj1 (@authenticate_accepts_iff toy_libs env0 unit 5000
                  (request (bearer (alice_token 999)) tt None 0) (world1 999)
                  (js "s3cret") (alice_token 999)
                  eq_refl eq_refl ltac:(discriminate) eq_refl)).
  exists {| userId := 1; email := js "alice@example.com"; iat := 0; exp := 86400 |},
         (alice_session 999), [].
  repeat split; try reflexivity.
  - now left.
Defined.

(* ------------------------------------------------------------------ *)
(** *** Refresh *)

(** C5 as stated fails.  The session of [alice] was issued at 1000 ms
    and is refreshed at 1500 ms, within the same second: the refresh
    succeeds, the token it returns is the old token, and the old token
    still validates. *)
Lemma refresh_within_a_second_keeps_token :
  let old := alice_token 1000 in
  let '(r, w) := @refreshToken toy_libs env0 unit 1500 (alice_refresh 1000)
                   (world1 1000) in
  r = Ok (reply 200 None (Some (TokenData old)))
  /\ fst (@authenticate toy_libs env0 unit 2000 (request (bearer old) tt None 0) w)
     = Ok (Next (hd alice (users (db w)))).
Proof. vm_compute. split; reflexivity. Qed.

Lemma refresh_replaces_token_witness :
  exists w',
    @refreshToken toy_libs env0 unit 5000 (alice_refresh 1000) (world1 1000)
    = (Ok (reply 200 None (Some (TokenData (alice_token 5000)))), w')
    /\ (forall now' B' (req' : Request B'),
           authorization req' = bearer (alice_token 1000) ->
           exists r', @authenticate toy_libs env0 B' now' req' w' = (Ok (Sent r'), w')
                      /\ status r' = 401).
Proof.
  destruct (@refresh_replaces_token toy_libs env0 unit 5000 (alice_refresh 1000)
              (world1 1000) alice (js "s3cret") (alice_token 1000))
    as (w' & H1 & _ & H3 & _).
  - exact toy_jwt_decode_encode.
  - reflexivity.
  - reflexivity.
  - discriminate.
  - reflexivity.
  - reflexivity.
  - vm_compute. reflexivity.
  - repeat constructor. intros [].
  - intros s [<-|[]] H. vm_compute in H. discriminate.
  - exists w'. split; [exact H1|].
    apply H3.
    + exists (alice_session 1000). split; [now left | reflexivity].
    + vm_compute. discriminate.
Defined.

(** After that refresh the old token is refused and the new one accepted. *)
Example refresh_later_replaces_token :
  let refreshed :=
    @refreshToken toy_libs env0 unit 5000 (alice_refresh 1000) (world1 1000) in
  fst (@authenticate toy_libs env0 unit 6000
         (request (bearer (alice_token 1000)) tt None 0) (snd refreshed))
  = Ok (Sent (failure 401 "Invalid or expired session"))
  /\ fst (@authenticate toy_libs env0 unit 6000
            (request (bearer (alice_token 5000)) tt None 0) (snd refreshed))
     = Ok (Next (hd alice (users (db (world1 1000))))).
Proof. split; vm_compute; reflexivity. Qed.

(** The row is renewed for one calendar day of the server.  On a day
    that has 23 hours there, the token signed at 5 s is refused 23 hours
    and a half later, one half-hour before the token itself expires. *)
Example refresh_on_a_short_day :
  let refreshed :=
    @refreshToken toy_libs env_dst unit 5000 (alice_refresh 1000) (world1 1000) in
  fst (@authenticate toy_libs env_dst unit 84605000
         (request (bearer (alice_token 5000)) tt None 0) (snd refreshed))
  = Ok (Sent (failure 401 "Invalid or expired session")).
Proof. vm_compute. reflexivity. Qed.

(** A refresh for a token that no row holds is answered 200 all the
    same, and the token it returns is refused. *)
Example refresh_without_a_row :
  let refreshed :=
    @refreshToken toy_libs env0 unit 5000 (alice_refresh 1000) world0 in
  fst refreshed = Ok (reply 200 None (Some (TokenData (alice_token 5000))))
  /\ fst (@authenticate toy_libs env0 unit 6000
            (request (bearer (alice_token 5000)) tt None 0) (snd refreshed))
     = Ok (Sent (failure 401 "Invalid or expired session")).
Proof. split; vm_compute; reflexivity. Qed.

(* ------------------------------------------------------------------ *)
(** *** Password history *)

(** The password of a stored credential is overwritten three times: the
    three updates succeed, the credential holds the third envelope, and
    the password history is empty. *)
Example three_password_updates :
  let '(rs, w) := @updates 1000
                    [password_update "envelope-1"; password_update "envelope-2";
                     password_update "envelope-3"] world0 in
  List.map status rs = [200; 200; 200]
  /\ List.map password (credentials (db w)) = [js "envelope-3"]
  /\ password_history (db w) = [].
Proof. vm_compute. repeat split. Qed.

(* ================================================================== *)
(** ** The further properties on concrete inputs *)

Lemma decrypt_ignores_iv_and_salt_witness :
  well_formed (js "p@ss1234") = true
  /\ @decrypt toy_crypto
       {| encrypted := encrypted (fst (@encrypt toy_crypto (js "p@ss1234") K0 zero_entropy));
          iv := js "00";
          authTag := authTag (fst (@encrypt toy_crypto (js "p@ss1234") K0 zero_entropy));
          salt := js "ff" |} K0
     = Some (js "p@ss1234").
Proof.
  split; [reflexivity|].
  apply (@decrypt_ignores_iv_and_salt toy_crypto (js "p@ss1234") K0 zero_entropy
           (js "00") (js "ff")).
  reflexivity.
Defined.

Lemma decrypt_rejects_other_tag_witness :
  @decrypt toy_crypto
     {| encrypted := encrypted (fst (@encrypt toy_crypto (js "p@ss1234") K0 zero_entropy));
        iv := iv (fst (@encrypt toy_crypto (js "p@ss1234") K0 zero_entropy));
        authTag := Hex.encode (repeat (byte_of_N 255) 16);
        salt := salt (fst (@encrypt toy_crypto (js "p@ss1234") K0 zero_entropy)) |} K0
  = None.
Proof.
  apply (@decrypt_rejects_other_tag toy_crypto (js "p@ss1234") K0 zero_entropy
           (repeat (byte_of_N 255) 16)).
  - reflexivity.
  - vm_compute. discriminate.
Defined.


Lemma rate_limiter_isolation_witness :
  rl_get (js "10.0.0.2")
    (snd (rateLimiter 2 1000 [] (Some (js "10.0.0.1")) None 5000))
  = rl_get (js "10.0.0.2") [].
Proof.
  apply (proj1 (rate_limiter_isolation 2 1000 [] (Some (js "10.0.0.1")) None 5000)).
  vm_compute. discriminate.
Defined.

Lemma getPasswordStrength_label_witness :
  (1 <= score (getPasswordStrength (js "Tr0ub4dor&3")) <= 5)%nat
  /\ nth_error labels (score (getPasswordStrength (js "Tr0ub4dor&3")) - 1)
     = Some (label (getPasswordStrength (js "Tr0ub4dor&3"))).
Proof.
  apply (proj2 (getPasswordStrength_label (js "Tr0ub4dor&3"))). discriminate.
Defined.

Lemma credentials_of_others_untouched_witness :
  preserves (credentials_of_others 1) (create 1000 new_credential).
Proof.
  apply (proj1 (credentials_of_others_untouched 1000 alice new_credential alice_bank)).
  reflexivity.
Defined.

Lemma delete_then_not_found_witness :
  credentials (db (snd (delete 1000 alice_bank world0))) = []
  /\ delete 2000 alice_bank (snd (delete 1000 alice_bank world0))
     = (Ok (failure 404 "Credential not found"), snd (delete 1000 alice_bank world0)).
Proof.
  destruct (@delete_then_not_found unit 1000 2000 alice_bank world0
              (snd (delete 1000 alice_bank world0))
              (reply 200 (Some "Credential deleted successfully"%string) None) alice)
    as (H1 & _ & H3); try reflexivity.
  split; [exact H1 | exact H3].
Defined.

Lemma toggleFavorite_twice_witness :
  List.map content
    (credentials (db (snd (toggleFavorite 2000 alice_bank
                             (snd (toggleFavorite 1000 alice_bank world0))))))
  = List.map content (credentials (db world0)).
Proof. apply (@toggleFavorite_twice unit 1000 2000 alice_bank world0). reflexivity. Defined.

Lemma logout_revokes_token_witness :
  let out := @protected toy_libs env0 unit (@logout unit) 5000
               (request (bearer (alice_token 999)) tt None 0) (world1 999) in
  sessions (db (snd out)) = []
  /\ forall now' B' (req' : Request B'),
       authorization req' = bearer (alice_token 999) ->
       exists r', @authenticate toy_libs env0 B' now' req' (snd out) = (Ok (Sent r'), snd out)
                  /\ status r' = 401.
Proof.
  cbv zeta.
  destruct (@logout_revokes_token toy_libs env0 unit 5000
              (request (bearer (alice_token 999)) tt None 0) (world1 999)
              (snd (@protected toy_libs env0 unit (@logout unit) 5000
                      (request (bearer (alice_token 999)) tt None 0) (world1 999)))
              (js "s3cret") (alice_token 999)
              (reply 200 (Some "Logout successful"%string) None))
    as (H1 & _ & H3 & _); try reflexivity; try discriminate.
  split; [exact H1 | exact H3].
Defined.

Lemma register_again_conflicts_witness :
  @register toy_libs 2000 carol_again (snd (@register toy_libs 1000 carol_registration world0))
  = (Ok (failure 409 "User with this email already exists"),
     snd (@register toy_libs 1000 carol_registration world0)).
Proof.
  apply (@register_again_conflicts toy_libs 1000 2000 carol_registration carol_again world0
           (snd (@register toy_libs 1000 carol_registration world0))
           (reply 201 (Some "User registered successfully"%string)
              (Some (RegisterData 100 (js "carol@example.com") Undefined)))
           (js "Carol@Example.com") (js "carol@example.COM") (js "AnotherHorse34"));
    try (vm_compute; reflexivity); try discriminate.
  cbn. lia.
Defined.

(** An address of 255 letters and a space is registered without the
    space; the same request again finds no row with the address it sends,
    and its INSERT breaks the UNIQUE constraint: it is answered 500, not
    409. *)
Lemma register_again_padded_address :
  let out := @register toy_libs 1000 padded_registration world0 in
  (exists r, fst out = Ok r /\ status r = 201
             /\ List.map u_email (users (db (snd out)))
                = List.map u_email (users (db world0)) ++ [repeat 97 255])
  /\ fst (@register toy_libs 2000 padded_registration (snd out))
     = Ok (failure 500 "Registration failed")
  /\ users (db (snd (@register toy_libs 2000 padded_registration (snd out))))
     = users (db (snd out)).
Proof.
  cbv zeta. split; [eexists; split; [vm_compute; reflexivity|]; split|split];
    vm_compute; reflexivity.
Defined.

